(** * Voting service of the feature-voting system

    A shallow embedding of the vote ledger ([votes] table), the feature
    store ([features] table), the vote-count triggers of
    [docker/database/init/0-triggers.sql] and the vote handlers of
    [voting-service/server.js] (POST /votes, PUT /votes/:id,
    DELETE /votes/:id, POST /votes/bulk).

    Tables are finite maps from the primary key [id] to the row, so the
    PRIMARY KEY constraint holds by construction.  Timestamps and free-text
    columns (title, description, messages) are left out: no decision of the
    modelled code reads them.

    Beside the vote handlers the development covers the lookup, statistics
    and pagination of the read endpoints of the voting service, the
    in-memory cache of the feature and reporting services, and the two
    handlers of [feature-service/server.js] that write the tables of the
    voting service (PATCH /features/:id/status, DELETE /features/:id). *)

From stdpp Require Import gmap strings list fin_maps.

Open Scope Z_scope.

(** ** Schema (03-sample-data.sql, lines 232-315 and 368-412) *)

(** [vote_type ENUM('upvote', 'downvote')] *)
Inductive vote_type := upvote | downvote.

#[global] Instance vote_type_eq_dec : EqDecision vote_type.
Proof. solve_decision. Defined.

(** [status ENUM('pending', 'approved', 'rejected', 'implemented', 'archived')] *)
Inductive feature_status := pending | approved | rejected | implemented | archived.

#[global] Instance feature_status_eq_dec : EqDecision feature_status.
Proof. solve_decision. Defined.

(** A row of [features]; [f_user_id] is the owner. *)
Record feature := mk_feature {
  f_user_id : Z;
  f_status : feature_status;
  votes_count : Z;
  upvotes_count : Z;
  downvotes_count : Z
}.

(** A row of [votes]. *)
Record vote := mk_vote {
  v_user_id : Z;
  v_feature_id : Z;
  v_vote_type : vote_type
}.

#[global] Instance vote_eq_dec : EqDecision vote.
Proof. solve_decision. Defined.

(** A row of [notifications] written by the insert trigger:
    [(user_id, 'vote_received', related_entity_id)] plus the vote type that
    the message text mentions. *)
Record notification := mk_notification {
  n_user_id : Z;
  n_related_entity_id : Z;
  n_vote_type : vote_type
}.

(** A row of [activity_logs] written by [log_vote_activity]:
    [(user_id, CONCAT('vote_', vote_type), entity_id, vote_id)]. *)
Record activity_log := mk_activity_log {
  a_user_id : Z;
  a_vote_type : vote_type;
  a_entity_id : Z;
  a_vote_id : Z
}.

(** The database.  [votes_auto_increment] is the AUTO_INCREMENT counter of
    [votes.id]. *)
Record db := mk_db {
  users : gset Z;
  features : gmap Z feature;
  votes : gmap Z vote;
  votes_auto_increment : Z;
  notifications : list notification;
  activity_logs : list activity_log
}.

Definition set_features (fs : gmap Z feature) (d : db) : db :=
  mk_db (users d) fs (votes d) (votes_auto_increment d)
        (notifications d) (activity_logs d).

Definition set_votes (vs : gmap Z vote) (d : db) : db :=
  mk_db (users d) (features d) vs (votes_auto_increment d)
        (notifications d) (activity_logs d).

Definition set_votes_auto_increment (n : Z) (d : db) : db :=
  mk_db (users d) (features d) (votes d) n
        (notifications d) (activity_logs d).

Definition add_notification (n : notification) (d : db) : db :=
  mk_db (users d) (features d) (votes d) (votes_auto_increment d)
        (notifications d ++ [n]) (activity_logs d).

Definition add_activity_log (a : activity_log) (d : db) : db :=
  mk_db (users d) (features d) (votes d) (votes_auto_increment d)
        (notifications d) (activity_logs d ++ [a]).

(** Errors a statement on [votes] can raise, by the [code] the driver
    reports. *)
Inductive sql_error :=
  | ER_DUP_ENTRY
  | ER_NO_REFERENCED_ROW_2
  | ER_SIGNAL_EXCEPTION (sqlMessage : string).

#[global] Instance sql_error_eq_dec : EqDecision sql_error.
Proof. solve_decision. Defined.

(** ** Queries *)

(** [COUNT(CASE WHEN vote_type = vt THEN 1 END) FROM votes WHERE feature_id = fid] *)
Definition count_votes (fid : Z) (vt : vote_type) (vs : gmap Z vote) : Z :=
  Z.of_nat (size (filter (λ kv : Z * vote,
                            v_feature_id kv.2 = fid ∧ v_vote_type kv.2 = vt) vs)).

(** [SELECT id, vote_type FROM votes WHERE user_id = ? AND feature_id = ?] *)
Definition select_votes_of_user_feature (uid fid : Z) (vs : gmap Z vote)
  : list (Z * vote) :=
  map_to_list (filter (λ kv : Z * vote,
                         v_user_id kv.2 = uid ∧ v_feature_id kv.2 = fid) vs).

(** [SELECT ... FROM votes WHERE id = ? AND user_id = ?] *)
Definition select_vote_of_user (vid uid : Z) (vs : gmap Z vote) : option vote :=
  match vs !! vid with
  | Some v => if decide (v_user_id v = uid) then Some v else None
  | None => None
  end.

(** ** Triggers (0-triggers.sql) *)

(** [validate_feature_status_transition], BEFORE UPDATE ON features
    (lines 252-277): [Some msg] stands for [SIGNAL SQLSTATE '45000']. *)
Definition validate_feature_status_transition (OLD NEW : feature_status)
  : option string :=
  if decide (OLD = NEW) then None
  else match OLD with
       | pending =>
           if bool_decide (NEW ∈ [approved; rejected; archived]) then None
           else Some "Invalid status transition from pending"%string
       | approved =>
           if bool_decide (NEW ∈ [implemented; archived; pending]) then None
           else Some "Invalid status transition from approved"%string
       | rejected =>
           if bool_decide (NEW ∈ [pending; archived]) then None
           else Some "Invalid status transition from rejected"%string
       | implemented =>
           if bool_decide (NEW ∈ [archived]) then None
           else Some "Invalid status transition from implemented"%string
       | archived => Some "Cannot change status of archived feature"%string
       end.

(** [UPDATE features SET votes_count = up - down, upvotes_count = up,
    downvotes_count = down, updated_at = CURRENT_TIMESTAMP WHERE id = fid],
    the statement shared by the three vote-count triggers.  The BEFORE UPDATE
    trigger of [features] runs on the row; [log_feature_update] (AFTER
    UPDATE) writes nothing when only counters change. *)
Definition update_feature_counts (fid up down : Z) (d : db) : sql_error + db :=
  match features d !! fid with
  | None => inr d
  | Some OLD =>
      let NEW := mk_feature (f_user_id OLD) (f_status OLD) (up - down) up down in
      match validate_feature_status_transition (f_status OLD) (f_status NEW) with
      | Some msg => inl (ER_SIGNAL_EXCEPTION msg)
      | None => inr (set_features (<[fid := NEW]> (features d)) d)
      end
  end.

(** The SELECT ... INTO followed by the UPDATE, as each of the three
    triggers runs it for the feature of the affected vote row. *)
Definition recompute_counts (fid : Z) (d : db) : sql_error + db :=
  update_feature_counts fid
    (count_votes fid upvote (votes d))
    (count_votes fid downvote (votes d)) d.

(** [update_votes_count_after_insert] (lines 10-47). *)
Definition update_votes_count_after_insert (NEW : vote) (d : db) : sql_error + db :=
  match recompute_counts (v_feature_id NEW) d with
  | inl e => inl e
  | inr d1 =>
      match features d1 !! v_feature_id NEW with
      | Some f =>
          if decide (v_user_id NEW ≠ f_user_id f) then
            inr (add_notification
                   (mk_notification (f_user_id f) (v_feature_id NEW) (v_vote_type NEW)) d1)
          else inr d1
      | None => inr d1
      end
  end.

(** [log_vote_activity] (lines 201-216). *)
Definition log_vote_activity (NEW_id : Z) (NEW : vote) (d : db) : db :=
  add_activity_log
    (mk_activity_log (v_user_id NEW) (v_vote_type NEW) (v_feature_id NEW) NEW_id) d.

(** [update_votes_count_after_update] (lines 50-76). *)
Definition update_votes_count_after_update (OLD NEW : vote) (d : db) : sql_error + db :=
  if decide (v_vote_type OLD ≠ v_vote_type NEW) then
    recompute_counts (v_feature_id NEW) d
  else inr d.

(** [update_votes_count_after_delete] (lines 79-102). *)
Definition update_votes_count_after_delete (OLD : vote) (d : db) : sql_error + db :=
  recompute_counts (v_feature_id OLD) d.

(** ** Statements on [votes]

    A statement that fails, in itself or in one of its triggers, leaves the
    rows of every table as they were (statement-level rollback). *)

(** [INSERT INTO votes (user_id, feature_id, vote_type) VALUES (?, ?, ?)]:
    primary key and [unique_user_feature_vote], the two foreign keys, then
    the AFTER INSERT triggers.  Returns [insertId].  The id is drawn from
    the AUTO_INCREMENT counter before the row is checked, and a rejected
    insert does not give it back; the rows of a rejected insert are rolled
    back.  A row for [(uid, fid)] refers to an existing user and feature in
    a database with referential integrity, so the order of the unique-key
    check and the foreign-key checks does not matter there. *)
Definition INSERT_INTO_votes (uid fid : Z) (vt : vote_type) (d : db)
  : (sql_error + Z) * db :=
  let NEW_id := votes_auto_increment d in
  let NEW := mk_vote uid fid vt in
  let d0 := set_votes_auto_increment (NEW_id + 1) d in
  if decide (is_Some (votes d !! NEW_id)) then (inl ER_DUP_ENTRY, d0)
  else if decide (select_votes_of_user_feature uid fid (votes d) ≠ [])
  then (inl ER_DUP_ENTRY, d0)
  else if decide (uid ∉ users d) then (inl ER_NO_REFERENCED_ROW_2, d0)
  else if decide (features d !! fid = None) then (inl ER_NO_REFERENCED_ROW_2, d0)
  else
    match update_votes_count_after_insert NEW
            (set_votes (<[NEW_id := NEW]> (votes d)) d0) with
    | inl e => (inl e, d0)
    | inr d2 => (inr NEW_id, log_vote_activity NEW_id NEW d2)
    end.

(** [UPDATE votes SET vote_type = ?, updated_at = NOW() WHERE id = ?] *)
Definition UPDATE_votes (vt : vote_type) (vid : Z) (d : db)
  : (sql_error + unit) * db :=
  match votes d !! vid with
  | None => (inr (), d)
  | Some OLD =>
      let NEW := mk_vote (v_user_id OLD) (v_feature_id OLD) vt in
      match update_votes_count_after_update OLD NEW
              (set_votes (<[vid := NEW]> (votes d)) d) with
      | inl e => (inl e, d)
      | inr d1 => (inr (), d1)
      end
  end.

(** [DELETE FROM votes WHERE id = ?] *)
Definition DELETE_FROM_votes (vid : Z) (d : db) : (sql_error + unit) * db :=
  match votes d !! vid with
  | None => (inr (), d)
  | Some OLD =>
      match update_votes_count_after_delete OLD
              (set_votes (delete vid (votes d)) d) with
      | inl e => (inl e, d)
      | inr d1 => (inr (), d1)
      end
  end.

(** ** Responses (voting-service/server.js) *)

Inductive vote_action := created | updated | removed.

#[global] Instance vote_action_eq_dec : EqDecision vote_action.
Proof. solve_decision. Defined.

(** [vote_counts: { upvotes, downvotes, total }] *)
Record vote_counts := mk_vote_counts {
  upvotes : Z;
  downvotes : Z;
  total : Z
}.

(** The [data] object of a successful POST /votes (lines 246-256). *)
Record vote_data := mk_vote_data {
  vote_id : option Z;
  action : vote_action;
  data_vote_type : option vote_type;
  feature_id : Z;
  counts : vote_counts
}.

(** [action] of a bulk operation: ['create'], ['update'], ['delete']. *)
Inductive bulk_action := op_create | op_update | op_delete.

(** One element of [operations] of POST /votes/bulk.  [op_user_id] stands
    for a [user_id] field that a client may put into the object; the
    validators neither require nor reject it. *)
Record bulk_op := mk_bulk_op {
  op_action : bulk_action;
  op_feature_id : option Z;
  op_vote_id : option Z;
  op_vote_type : option vote_type;
  op_user_id : option Z
}.

(** One element of [results]: [{ operation, success, vote_id?, error? }]. *)
Record bulk_result := mk_bulk_result {
  operation : bulk_op;
  success : bool;
  result_vote_id : option Z;
  error : option sql_error
}.

Inductive response :=
  | json_error (status : Z) (message : string)
  | json_vote (data : vote_data)
  | json_vote_updated (vote : option (Z * vote))
  | json_vote_deleted
  | json_bulk (successCount total_operations : nat) (results : list bulk_result).

(** HTTP status of a response; [res.json] without [res.status] answers 200. *)
Definition status_of (r : response) : Z :=
  match r with
  | json_error st _ => st
  | _ => 200
  end.

(** ** POST /votes (lines 150-274)

    The handler body after [requireAuth], the rate limiter and the
    validators.  Every [await pool.execute] is a statement of its own, so the
    reads and the write may see different database states; [cast_vote_at]
    keeps the two apart and [cast_vote] is the run without interference. *)

(** Lines 155-184: feature lookup, self-vote check, archived check. *)
Definition cast_vote_checks (userId fid : Z) (d : db) : option response :=
  match features d !! fid with
  | None => Some (json_error 404 "Feature not found")
  | Some f =>
      if decide (f_user_id f = userId)
      then Some (json_error 400 "Cannot vote on your own feature")
      else if decide (f_status f = archived)
      then Some (json_error 400 "Cannot vote on archived features")
      else None
  end.

(** The branch chosen at lines 195-221 from [existingVotes]. *)
Inductive vote_decision :=
  | remove_existing (id : Z)
  | update_existing (id : Z)
  | insert_new.

Definition cast_vote_decide (userId fid : Z) (vt : vote_type) (d : db)
  : vote_decision :=
  match select_votes_of_user_feature userId fid (votes d) with
  | (id, existingVote) :: _ =>
      if decide (v_vote_type existingVote = vt) then remove_existing id
      else update_existing id
  | [] => insert_new
  end.

(** The catch block, lines 259-273. *)
Definition cast_vote_catch (e : sql_error) : response :=
  match e with
  | ER_SIGNAL_EXCEPTION sqlMessage =>
      json_error 400
        (if decide (sqlMessage = ""%string) then "Vote operation failed"%string
         else sqlMessage)
  | _ => json_error 500 "Internal server error"
  end.

(** Lines 223-257: the count query on [votes] and the response. *)
Definition cast_vote_respond (voteId : option Z) (act : vote_action)
    (fid : Z) (vt : vote_type) (d : db) : response :=
  let up := count_votes fid upvote (votes d) in
  let down := count_votes fid downvote (votes d) in
  json_vote (mk_vote_data voteId act
               (if decide (act = removed) then None else Some vt)
               fid (mk_vote_counts up down (up - down))).

(** Lines 195-257 for a branch already chosen. *)
Definition cast_vote_execute (userId fid : Z) (vt : vote_type)
    (dec : vote_decision) (d : db) : response * db :=
  match dec with
  | remove_existing id =>
      match DELETE_FROM_votes id d with
      | (inl e, d') => (cast_vote_catch e, d')
      | (inr _, d') => (cast_vote_respond None removed fid vt d', d')
      end
  | update_existing id =>
      match UPDATE_votes vt id d with
      | (inl e, d') => (cast_vote_catch e, d')
      | (inr _, d') => (cast_vote_respond (Some id) updated fid vt d', d')
      end
  | insert_new =>
      match INSERT_INTO_votes userId fid vt d with
      | (inl e, d') => (cast_vote_catch e, d')
      | (inr insertId, d') => (cast_vote_respond (Some insertId) created fid vt d', d')
      end
  end.

(** The handler with its reads run against [d_read] and its write (and the
    count query after it) against [d_write]. *)
Definition cast_vote_at (userId fid : Z) (vt : vote_type) (d_read d_write : db)
  : response * db :=
  match cast_vote_checks userId fid d_read with
  | Some r => (r, d_write)
  | None =>
      cast_vote_execute userId fid vt (cast_vote_decide userId fid vt d_read) d_write
  end.

Definition cast_vote (userId fid : Z) (vt : vote_type) (d : db) : response * db :=
  cast_vote_at userId fid vt d d.

(** ** PUT /votes/:id (lines 277-335) *)

(** [SELECT v.*, f.title FROM votes v JOIN features f ON v.feature_id = f.id
    WHERE v.id = ?], first row. *)
Definition select_vote_with_feature (vid : Z) (d : db) : option (Z * vote) :=
  match votes d !! vid with
  | Some v =>
      match features d !! v_feature_id v with
      | Some _ => Some (vid, v)
      | None => None
      end
  | None => None
  end.

Definition update_vote (voteId userId : Z) (vt : vote_type) (d : db)
  : response * db :=
  match select_vote_of_user voteId userId (votes d) with
  | None => (json_error 404 "Vote not found or access denied", d)
  | Some v =>
      if decide (v_vote_type v = vt)
      then (json_error 400 "Vote type is already set to this value", d)
      else match UPDATE_votes vt voteId d with
           | (inl _, d') => (json_error 500 "Internal server error", d')
           | (inr _, d') => (json_vote_updated (select_vote_with_feature voteId d'), d')
           end
  end.

(** ** DELETE /votes/:id (lines 338-377) *)

Definition remove_vote (voteId userId : Z) (d : db) : response * db :=
  match select_vote_of_user voteId userId (votes d) with
  | None => (json_error 404 "Vote not found or access denied", d)
  | Some _ =>
      match DELETE_FROM_votes voteId d with
      | (inl _, d') => (json_error 500 "Internal server error", d')
      | (inr _, d') => (json_vote_deleted, d')
      end
  end.

(** ** POST /votes/bulk (lines 758-858) *)

(** JavaScript truthiness of an optional integer field. *)
Definition truthy (o : option Z) : option Z :=
  match o with
  | Some z => if decide (z = 0) then None else Some z
  | None => None
  end.

(** One turn of the loop at lines 784-826: the statement of the operation
    and the result pushed for it. *)
Definition bulk_operation (userId : Z) (op : bulk_op) (d : db) : bulk_result * db :=
  match op_action op with
  | op_create =>
      match truthy (op_feature_id op), op_vote_type op with
      | Some fid, Some vt =>
          match INSERT_INTO_votes userId fid vt d with
          | (inr insertId, d') => (mk_bulk_result op true (Some insertId) None, d')
          | (inl e, d') => (mk_bulk_result op false None (Some e), d')
          end
      | _, _ => (mk_bulk_result op false None None, d)
      end
  | op_update =>
      match truthy (op_vote_id op), op_vote_type op with
      | Some vid, Some vt =>
          match UPDATE_votes vt vid d with
          | (inr _, d') => (mk_bulk_result op true None None, d')
          | (inl e, d') => (mk_bulk_result op false None (Some e), d')
          end
      | _, _ => (mk_bulk_result op false None None, d)
      end
  | op_delete =>
      match truthy (op_vote_id op) with
      | Some vid =>
          match DELETE_FROM_votes vid d with
          | (inr _, d') => (mk_bulk_result op true None None, d')
          | (inl e, d') => (mk_bulk_result op false None (Some e), d')
          end
      | None => (mk_bulk_result op false None None, d)
      end
  end.

(** The loop: operations in list order, one result pushed per operation. *)
Fixpoint bulk_operations (userId : Z) (ops : list bulk_op) (d : db)
  : list bulk_result * db :=
  match ops with
  | [] => ([], d)
  | op :: ops' =>
      let '(r, d1) := bulk_operation userId op d in
      let '(rs, d2) := bulk_operations userId ops' d1 in
      (r :: rs, d2)
  end.

Definition bulk_votes (userId : Z) (userRole : string) (ops : list bulk_op) (d : db)
  : response * db :=
  if decide (userRole ≠ "admin"%string)
  then (json_error 403 "Admin access required", d)
  else
    let '(results, d') := bulk_operations userId ops d in
    (json_bulk (length (filter (λ r, success r = true) results))
               (length ops) results, d').

(** ** Requests and runs *)

Inductive request :=
  | POST_votes (userId fid : Z) (vt : vote_type)
  | PUT_votes (voteId userId : Z) (vt : vote_type)
  | DELETE_votes (voteId userId : Z)
  | POST_votes_bulk (userId : Z) (userRole : string) (ops : list bulk_op).

Definition handle (r : request) (d : db) : response * db :=
  match r with
  | POST_votes userId fid vt => cast_vote userId fid vt d
  | PUT_votes voteId userId vt => update_vote voteId userId vt d
  | DELETE_votes voteId userId => remove_vote voteId userId d
  | POST_votes_bulk userId userRole ops => bulk_votes userId userRole ops d
  end.

(** The database after each request of a sequence, oldest first. *)
Fixpoint states_after (rs : list request) (d : db) : list db :=
  match rs with
  | [] => []
  | r :: rs' => let d' := (handle r d).2 in d' :: states_after rs' d'
  end.

(** The database after each turn of the bulk loop, oldest first. *)
Fixpoint bulk_states_after (userId : Z) (ops : list bulk_op) (d : db) : list db :=
  match ops with
  | [] => []
  | op :: ops' =>
      let d' := (bulk_operation userId op d).2 in
      d' :: bulk_states_after userId ops' d'
  end.

(** ** The counter invariant *)

(** The three counters of feature [fid] equal the aggregate over [vs]. *)
Definition feature_consistent (vs : gmap Z vote) (fid : Z) (f : feature) : Prop :=
  upvotes_count f = count_votes fid upvote vs ∧
  downvotes_count f = count_votes fid downvote vs ∧
  votes_count f = upvotes_count f - downvotes_count f.

Definition counters_consistent (d : db) : Prop :=
  ∀ fid f, features d !! fid = Some f → feature_consistent (votes d) fid f.

(** [unique_user_feature_vote]: at most one row per (user_id, feature_id). *)
Definition unique_user_feature_vote (vs : gmap Z vote) : Prop :=
  map_Forall (λ i v,
    map_Forall (λ j w,
      v_user_id v = v_user_id w → v_feature_id v = v_feature_id w → i = j) vs) vs.

(** What the storage engine maintains for [votes]: the unique key, and an
    AUTO_INCREMENT counter above every id in use. *)
Definition ledger_wf (d : db) : Prop :=
  unique_user_feature_vote (votes d) ∧
  map_Forall (λ i _, i < votes_auto_increment d) (votes d).

(** User [uid] has no vote row on feature [fid]. *)
Definition no_vote_of (uid fid : Z) (vs : gmap Z vote) : Prop :=
  map_Forall (λ _ v, ¬ (v_user_id v = uid ∧ v_feature_id v = fid)) vs.

#[global] Instance unique_user_feature_vote_dec vs :
  Decision (unique_user_feature_vote vs).
Proof. unfold unique_user_feature_vote. apply _. Defined.

#[global] Instance ledger_wf_dec d : Decision (ledger_wf d).
Proof. unfold ledger_wf. apply _. Defined.

#[global] Instance no_vote_of_dec uid fid vs : Decision (no_vote_of uid fid vs).
Proof. unfold no_vote_of. apply _. Defined.

(** The row a recompute writes for a feature. *)
Definition with_counts (up down : Z) (f : feature) : feature :=
  mk_feature (f_user_id f) (f_status f) (up - down) up down.

(** The database after a recompute for [fid] that did not signal. *)
Definition recomputed (fid : Z) (d : db) : db :=
  set_features
    (alter (with_counts (count_votes fid upvote (votes d))
                        (count_votes fid downvote (votes d))) fid (features d)) d.

(** ** Sample databases and the normal forms used in the proofs *)

(** The database after a successful insert of [(uid, fid, vt)]. *)
Definition inserted (uid fid : Z) (vt : vote_type) (d : db) : db :=
  let NEW_id := votes_auto_increment d in
  let NEW := mk_vote uid fid vt in
  let d1 := recomputed fid
              (set_votes_auto_increment (NEW_id + 1)
                 (set_votes (<[NEW_id := NEW]> (votes d)) d)) in
  log_vote_activity NEW_id NEW
    (match features d1 !! fid with
     | Some f =>
         if decide (uid ≠ f_user_id f)
         then add_notification (mk_notification (f_user_id f) fid vt) d1
         else d1
     | None => d1
     end).

(** The database of the scenario of the specification: feature 10 owned by
    user 1, users 2 and 3 as voters, no votes yet. *)
Definition scenario_db : db :=
  mk_db {[1; 2; 3]} {[10 := mk_feature 1 pending 0 0 0]} ∅ 1 [] [].

Definition scenario_requests : list request :=
  [ POST_votes 2 10 upvote; POST_votes 3 10 downvote;
    POST_votes 2 10 downvote; POST_votes 3 10 downvote;
    PUT_votes 1 2 upvote; DELETE_votes 1 2;
    POST_votes_bulk 1 "admin"
      [ mk_bulk_op op_create (Some 10) None (Some upvote) None;
        mk_bulk_op op_update None (Some 3) (Some downvote) None;
        mk_bulk_op op_delete None (Some 3) None None ] ].

(** [vote_counts] as the handler reads them from the ledger. *)
Definition ledger_counts (fid : Z) (vs : gmap Z vote) : vote_counts :=
  mk_vote_counts (count_votes fid upvote vs) (count_votes fid downvote vs)
    (count_votes fid upvote vs - count_votes fid downvote vs).

(** Feature 10 (owner 1, pending) with one upvote, row 1, by user 2. *)
Definition one_vote_db : db :=
  mk_db {[1; 2; 3]} {[10 := mk_feature 1 pending 1 1 0]}
        {[1 := mk_vote 2 10 upvote]} 2 [] [].

(** Feature 10 of user 1, archived after user 2 upvoted it (row 1). *)
Definition archived_db : db :=
  mk_db {[1; 2; 3]} {[10 := mk_feature 1 archived 1 1 0]}
        {[1 := mk_vote 2 10 upvote]} 2 [] [].

(** Modelled on the words of the specification (section 5 and the Conflict
    entry of section 7), for comparison with [cast_vote_at]: when the insert
    is rejected by the unique key, re-read the ledger, replay the
    create/update/remove decision once, and surface a failure only if that
    retry fails. *)
Definition cast_vote_with_retry_spec (userId fid : Z) (vt : vote_type)
    (d_read d_write : db) : response * db :=
  match cast_vote_checks userId fid d_read with
  | Some r => (r, d_write)
  | None =>
      match cast_vote_decide userId fid vt d_read with
      | insert_new =>
          match INSERT_INTO_votes userId fid vt d_write with
          | (inl ER_DUP_ENTRY, d') =>
              cast_vote_execute userId fid vt (cast_vote_decide userId fid vt d') d'
          | (inl e, d') => (cast_vote_catch e, d')
          | (inr insertId, d') =>
              (cast_vote_respond (Some insertId) created fid vt d', d')
          end
      | dec => cast_vote_execute userId fid vt dec d_write
      end
  end.

(** The ledger as a second, identical request of user 2 finds it when its
    reads ran on [scenario_db] and the first request committed in between. *)
Definition raced_db : db := (cast_vote 2 10 upvote scenario_db).2.

(** The batch of the scenario: administrator 3 creates an upvote on feature
    10, updates vote 99 (no such row), deletes vote 1. *)
Definition partial_batch : list bulk_op :=
  [ mk_bulk_op op_create (Some 10) None (Some upvote) None;
    mk_bulk_op op_update None (Some 99) (Some downvote) None;
    mk_bulk_op op_delete None (Some 1) None None ].

(** A create on feature 10 that carries a [user_id] of 2. *)
Definition bulk_create_own_archived : bulk_op :=
  mk_bulk_op op_create (Some 10) None (Some upvote) (Some 2).

(** * The read endpoints of the voting service *)

(** ** GET /votes/user/:userId/feature/:featureId (lines 650-689) *)

Inductive vote_lookup :=
  | lookup_error (status : Z) (message : string)
  | lookup_vote (id : Z) (v : vote) (feature_status : feature_status).

(** [SELECT v.*, f.title as feature_title, f.status as feature_status
    FROM votes v JOIN features f ON v.feature_id = f.id
    WHERE v.user_id = ? AND v.feature_id = ?] *)
Definition select_vote_joined (userId featureId : Z) (d : db)
  : list (Z * vote * feature_status) :=
  omap (λ iv : Z * vote,
          match features d !! v_feature_id iv.2 with
          | Some f => Some (iv.1, iv.2, f_status f)
          | None => None
          end)
       (select_votes_of_user_feature userId featureId (votes d)).

Definition get_user_feature_vote (userId featureId : Z) (d : db) : vote_lookup :=
  match select_vote_joined userId featureId d with
  | [] => lookup_error 404 "Vote not found"
  | (id, v, st) :: _ => lookup_vote id v st
  end.

(** ** The statistics queries *)

(** [{ total_votes, upvotes, downvotes }] *)
Record vote_statistics := mk_vote_statistics {
  total_votes : Z;
  stat_upvotes : Z;
  stat_downvotes : Z
}.

(** GET /votes/feature/:featureId, lines 597-604:
    [SELECT COUNT( * ), COUNT(CASE WHEN vote_type = 'upvote' THEN 1 END),
    COUNT(CASE WHEN vote_type = 'downvote' THEN 1 END)
    FROM votes WHERE feature_id = ?] *)
Definition feature_vote_statistics (featureId : Z) (vs : gmap Z vote)
  : vote_statistics :=
  mk_vote_statistics
    (Z.of_nat (size (filter (λ iv : Z * vote, v_feature_id iv.2 = featureId) vs)))
    (count_votes featureId upvote vs)
    (count_votes featureId downvote vs).

(** [{ total_votes, upvotes, downvotes, features_voted }] of a user. *)
Record user_vote_statistics := mk_user_vote_statistics {
  user_total_votes : Z;
  user_upvotes : Z;
  user_downvotes : Z;
  features_voted : Z
}.

(** GET /votes/user/:userId, lines 508-518:
    [SELECT COUNT( * ), COUNT(CASE WHEN vote_type = 'upvote' THEN 1 END),
    COUNT(CASE WHEN vote_type = 'downvote' THEN 1 END),
    COUNT(DISTINCT feature_id) FROM votes WHERE user_id = ?] *)
Definition user_vote_statistics_of (userId : Z) (vs : gmap Z vote)
  : user_vote_statistics :=
  let rows := filter (λ iv : Z * vote, v_user_id iv.2 = userId) vs in
  mk_user_vote_statistics
    (Z.of_nat (size rows))
    (Z.of_nat (size (filter (λ iv : Z * vote, v_vote_type iv.2 = upvote) rows)))
    (Z.of_nat (size (filter (λ iv : Z * vote, v_vote_type iv.2 = downvote) rows)))
    (Z.of_nat (size (list_to_set (C := gset Z)
                       ((λ iv : Z * vote, v_feature_id iv.2) <$> map_to_list rows)))).

(** ** Pagination (lines 390 and 433-447, 473 and 525-532, 558 and 629-636) *)

(** [Math.ceil(total / limit)] for a positive [limit]. *)
Definition ceil_div (total limit : Z) : Z := - ((- total) `div` limit).

(** [const offset = (page - 1) * limit] *)
Definition page_offset (page limit : Z) : Z := (page - 1) * limit.

(** [pagination: { page, limit, total, totalPages, hasNext, hasPrev }] *)
Record pagination := mk_pagination {
  pg_page : Z;
  pg_limit : Z;
  pg_total : Z;
  totalPages : Z;
  hasNext : bool;
  hasPrev : bool
}.

Definition paginate (page limit total : Z) : pagination :=
  mk_pagination page limit total (ceil_div total limit)
    (bool_decide (page < ceil_div total limit)) (bool_decide (page > 1)).

(** [LIMIT ? OFFSET ?] with the parameters [limit] and [offset] of the
    handlers, on the rows that the query selects and orders. *)
Definition page_rows {A} (rows : list A) (page limit : Z) : list A :=
  take (Z.to_nat limit) (drop (Z.to_nat (page_offset page limit)) rows).

(** * The in-memory cache (feature-service/server.js lines 55-70,
      reporting service lines 953-968)

    [const cache = new Map()], with [Date.now()] passed in as [now]
    (milliseconds). *)

(** [{ value, expiry }] *)
Record cache_item (A : Type) := mk_cache_item {
  item_value : A;
  item_expiry : Z
}.
Arguments mk_cache_item {A} _ _.
Arguments item_value {A} _.
Arguments item_expiry {A} _.

Abbreviation cache A := (gmap string (cache_item A)).

(** [cacheGet(key)]: the value, or [null] after removing the entry. *)
Definition cacheGet {A} (key : string) (now : Z) (c : cache A)
  : option A * cache A :=
  match c !! key with
  | Some item =>
      if decide (now < item_expiry item) then (Some (item_value item), c)
      else (None, delete key c)
  | None => (None, delete key c)
  end.

(** [cacheSet(key, value, ttl)], [ttl] in seconds. *)
Definition cacheSet {A} (key : string) (value : A) (ttl now : Z) (c : cache A)
  : cache A :=
  <[key := mk_cache_item value (now + ttl * 1000)]> c.

(** The frame every report handler puts around its queries (for one,
    GET /reports/features/votes/all, lines 1033-1039 and 1099-1111):
    answer from the cache on a hit, else run the queries, store the
    response and answer it.  [compute] stands for the queries of the
    handler and the response built from their rows, [ttl] for [CACHE_TTL],
    the default of [cacheSet]. *)
Definition cached_report {A} (cacheKey : string) (compute : db → A)
    (ttl now : Z) (d : db) (c : cache A) : A * cache A :=
  match cacheGet cacheKey now c with
  | (Some cached, c') => (cached, c')
  | (None, c') =>
      let response := compute d in
      (response, cacheSet cacheKey response ttl now c')
  end.

(** Answers of POST /reports/cache/clear. *)
Inductive cache_clear_response :=
  | cache_clear_error (status : Z) (message : string)
  | cache_cleared (message : string).

(** POST /reports/cache/clear (lines 1794-1822); [userRole] is the
    [x-user-role] header, if the request has one. *)
Definition clear_cache {A} (userRole : option string) (c : cache A)
  : cache_clear_response * cache A :=
  if decide (userRole ≠ Some "admin"%string)
  then (cache_clear_error 403 "Admin access required", c)
  else (cache_cleared "Cache cleared successfully", ∅).

(** * The feature service on the tables of the voting service
      (feature-service/server.js)

    The handlers that write [features.status] or delete a feature, after
    [requireAuth] and the validators.  The rows that the triggers of
    [features] add to [activity_logs] and [notifications]
    ([log_feature_update], 0-triggers.sql lines 126-178) are rows of other
    types than the ones the lists of [db] hold, which are those written by
    the vote triggers; the [is_read] flag that
    [cleanup_notifications_on_feature_delete] sets is not a modelled
    column. *)

Inductive feature_response :=
  | feature_error (status : Z) (message : string)
  | feature_status_updated (feature : option feature)
  | feature_deleted.

(** [UPDATE features SET status = ?, updated_at = NOW(), ... WHERE id = ?]
    (lines 583-608), with the BEFORE UPDATE trigger
    [validate_feature_status_transition] run on the row.  The text columns
    and timestamps that the statement may set as well are not modelled.  The
    second part of the trigger (0-triggers.sql from line 279 on, where the
    file ends) sets [approved_at] and the like; it is taken to raise
    nothing, as the state machine in section 9 of the specification has
    it. *)
Definition UPDATE_features_status (status : feature_status) (fid : Z) (d : db)
  : (sql_error + unit) * db :=
  match features d !! fid with
  | None => (inr (), d)
  | Some OLD =>
      match validate_feature_status_transition (f_status OLD) status with
      | Some msg => (inl (ER_SIGNAL_EXCEPTION msg), d)
      | None =>
          (inr (),
           set_features
             (<[fid := mk_feature (f_user_id OLD) status (votes_count OLD)
                         (upvotes_count OLD) (downvotes_count OLD)]> (features d)) d)
      end
  end.

(** [SELECT f.*, u.username, ... FROM features f JOIN users u
    ON f.user_id = u.id WHERE f.id = ?], first row. *)
Definition select_feature_with_user (fid : Z) (d : db) : option feature :=
  match features d !! fid with
  | Some f => if decide (f_user_id f ∈ users d) then Some f else None
  | None => None
  end.

(** PATCH /features/:id/status (lines 552-637). *)
Definition update_feature_status {A} (userRole : string) (featureId : Z)
    (status : feature_status) (d : db) (c : cache A)
  : feature_response * (db * cache A) :=
  if decide (userRole ≠ "admin"%string)
  then (feature_error 403 "Admin access required", (d, c))
  else
    match features d !! featureId with
    | None => (feature_error 404 "Feature not found", (d, c))
    | Some _ =>
        match UPDATE_features_status status featureId d with
        | (inl _, d') => (feature_error 500 "Internal server error", (d', c))
        | (inr _, d') =>
            (feature_status_updated (select_feature_with_user featureId d'), (d', ∅))
        end
    end.

(** [requireOwnershipOrAdmin] (lines 163-200): [None] stands for [next()]. *)
Definition requireOwnershipOrAdmin (userId : Z) (userRole : string)
    (featureId : Z) (d : db) : option feature_response :=
  if decide (userRole = "admin"%string) then None
  else
    match features d !! featureId with
    | None => Some (feature_error 404 "Feature not found")
    | Some f =>
        if decide (f_user_id f ≠ userId)
        then Some (feature_error 403 "Access denied")
        else None
    end.

(** [DELETE FROM features WHERE id = ?]: the row goes, and with it the rows
    of [votes] that refer to it ([FOREIGN KEY (feature_id) REFERENCES
    features(id) ON DELETE CASCADE], 03-sample-data.sql line 304). *)
Definition DELETE_FROM_features (fid : Z) (d : db) : db :=
  set_votes (filter (λ iv : Z * vote, v_feature_id iv.2 ≠ fid) (votes d))
    (set_features (delete fid (features d)) d).

(** DELETE /features/:id (lines 640-680), with its ownership middleware. *)
Definition delete_feature {A} (userId : Z) (userRole : string) (featureId : Z)
    (d : db) (c : cache A) : feature_response * (db * cache A) :=
  match requireOwnershipOrAdmin userId userRole featureId d with
  | Some r => (r, (d, c))
  | None =>
      match features d !! featureId with
      | None => (feature_error 404 "Feature not found", (d, c))
      | Some _ => (feature_deleted, (DELETE_FROM_features featureId d, ∅))
      end
  end.

(** ** Requests to both services *)

Inductive system_request :=
  | vote_request (r : request)
  | PATCH_features_status (userRole : string) (featureId : Z)
      (status : feature_status)
  | DELETE_features (userId : Z) (userRole : string) (featureId : Z).

(** The tables after a request; the cache of the feature service has no
    part in what its handlers write to the tables. *)
Definition system_step (r : system_request) (d : db) : db :=
  match r with
  | vote_request r => (handle r d).2
  | PATCH_features_status userRole featureId status =>
      (update_feature_status (A := unit) userRole featureId status d ∅).2.1
  | DELETE_features userId userRole featureId =>
      (delete_feature (A := unit) userId userRole featureId d ∅).2.1
  end.

(** The tables after each request of a sequence, oldest first. *)
Fixpoint system_states_after (rs : list system_request) (d : db) : list db :=
  match rs with
  | [] => []
  | r :: rs' => let d' := system_step r d in d' :: system_states_after rs' d'
  end.

(** Referential integrity of [votes]: the two foreign keys. *)
Definition votes_reference (d : db) : Prop :=
  map_Forall (λ _ v, v_user_id v ∈ users d ∧ is_Some (features d !! v_feature_id v))
             (votes d).

#[global] Instance votes_reference_dec d : Decision (votes_reference d).
Proof. unfold votes_reference. apply _. Defined.

(** A database with one feature per status. *)
Definition lifecycle_db : db :=
  mk_db {[1; 2; 3]}
        (<[11 := mk_feature 1 pending 0 0 0]>
           (<[12 := mk_feature 1 implemented 1 1 0]>
              {[13 := mk_feature 2 archived 0 0 0]}))
        {[1 := mk_vote 2 12 upvote]} 2 [] [].

#[global] Instance feature_consistent_dec vs fid f :
  Decision (feature_consistent vs fid f).
Proof. unfold feature_consistent. apply _. Defined.

(** Status changes, a deletion and votes, by an administrator (user 1) and
    the users 2 and 3. *)
Definition lifecycle_requests : list system_request :=
  [ vote_request (POST_votes 2 11 upvote);
    PATCH_features_status "admin" 11 approved;
    PATCH_features_status "admin" 11 implemented;
    PATCH_features_status "admin" 11 pending;
    PATCH_features_status "user" 12 archived;
    vote_request (POST_votes 3 11 downvote);
    PATCH_features_status "admin" 13 pending;
    DELETE_features 3 "user" 12;
    DELETE_features 1 "user" 12;
    PATCH_features_status "admin" 11 archived ].

(** The columns of a feature row that no vote statement writes. *)
Definition feature_identity (f : feature) : Z * feature_status :=
  (f_user_id f, f_status f).

(** The statuses a feature can still take once it had status [s0], as
    far as [implemented] and [archived] are concerned. *)
Definition status_after (s0 s : feature_status) : Prop :=
  match s0 with
  | archived => s = archived
  | implemented => s = implemented ∨ s = archived
  | _ => True
  end.

(** * Proofs *)

(** *** Triggers never signal on a counter update *)

Lemma validate_feature_status_transition_same st :
  validate_feature_status_transition st st = None.
Proof. unfold validate_feature_status_transition. by rewrite decide_True. Qed.

Lemma alter_as_insert {A} (g : A → A) (m : gmap Z A) i x :
  m !! i = Some x → alter g i m = <[i := g x]> m.
Proof.
  intros Hi. apply map_eq. intros j. destruct (decide (i = j)) as [<-|Hne].
  - by rewrite lookup_alter_eq, lookup_insert_eq, Hi.
  - by rewrite lookup_alter_ne, lookup_insert_ne.
Qed.

Lemma alter_absent {A} (g : A → A) (m : gmap Z A) i :
  m !! i = None → alter g i m = m.
Proof.
  intros Hi. apply map_eq. intros j. destruct (decide (i = j)) as [<-|Hne].
  - by rewrite lookup_alter_eq, Hi.
  - by rewrite lookup_alter_ne.
Qed.

Lemma recompute_counts_eq fid d : recompute_counts fid d = inr (recomputed fid d).
Proof.
  unfold recompute_counts, update_feature_counts, recomputed.
  destruct (features d !! fid) as [OLD|] eqn:Hf.
  - simpl. rewrite validate_feature_status_transition_same.
    by rewrite (alter_as_insert _ _ _ OLD).
  - rewrite alter_absent by done. by destruct d.
Qed.

Lemma votes_recomputed fid d : votes (recomputed fid d) = votes d.
Proof. done. Qed.

Lemma features_recomputed fid d :
  features (recomputed fid d)
  = alter (with_counts (count_votes fid upvote (votes d))
                       (count_votes fid downvote (votes d))) fid (features d).
Proof. done. Qed.

(** *** What each statement leaves behind *)

(** The votes and features a statement leaves are all the invariant reads. *)
Lemma counters_consistent_ext d d' :
  features d' = features d → votes d' = votes d →
  counters_consistent d → counters_consistent d'.
Proof. unfold counters_consistent. intros -> ->. done. Qed.

(** Rows of other features do not enter the count of [fid]. *)
Lemma count_votes_ext fid vt (vs vs' : gmap Z vote) :
  (∀ i v, v_feature_id v = fid → vs !! i = Some v ↔ vs' !! i = Some v) →
  count_votes fid vt vs = count_votes fid vt vs'.
Proof.
  intros Hext. unfold count_votes. do 2 f_equal.
  apply map_eq. intros i. apply option_eq. intros v.
  rewrite !map_lookup_filter_Some. simpl.
  split; intros [Hi [Hfid Hvt]]; (split; [by apply Hext | done]).
Qed.

(** A recompute for [fid] restores the invariant when every other feature
    already satisfies it. *)
Lemma recomputed_consistent fid d :
  (∀ g f, g ≠ fid → features d !! g = Some f →
          feature_consistent (votes d) g f) →
  counters_consistent (recomputed fid d).
Proof.
  intros Hother g f. rewrite features_recomputed, votes_recomputed.
  destruct (decide (fid = g)) as [<-|Hne].
  - rewrite lookup_alter_eq. destruct (features d !! fid); simpl; [|done].
    intros [= <-]. unfold feature_consistent, with_counts. simpl. done.
  - rewrite lookup_alter_ne by done. apply Hother. done.
Qed.

Lemma feature_consistent_ext g f (vs vs' : gmap Z vote) :
  (∀ i v, v_feature_id v = g → vs !! i = Some v ↔ vs' !! i = Some v) →
  feature_consistent vs g f → feature_consistent vs' g f.
Proof.
  intros Hext (Hup & Hdown & Hnet). unfold feature_consistent.
  by rewrite <- !(count_votes_ext g _ vs vs').
Qed.

(** Results of the three statements, with the triggers resolved. *)
Lemma DELETE_FROM_votes_eq vid d :
  DELETE_FROM_votes vid d
  = match votes d !! vid with
    | None => (inr (), d)
    | Some OLD =>
        (inr (), recomputed (v_feature_id OLD) (set_votes (delete vid (votes d)) d))
    end.
Proof.
  unfold DELETE_FROM_votes, update_votes_count_after_delete.
  destruct (votes d !! vid); [|done]. by rewrite recompute_counts_eq.
Qed.

Lemma UPDATE_votes_eq vt vid d :
  UPDATE_votes vt vid d
  = match votes d !! vid with
    | None => (inr (), d)
    | Some OLD =>
        let d1 := set_votes
                    (<[vid := mk_vote (v_user_id OLD) (v_feature_id OLD) vt]> (votes d)) d in
        (inr (), if decide (v_vote_type OLD ≠ vt)
                 then recomputed (v_feature_id OLD) d1 else d1)
    end.
Proof.
  unfold UPDATE_votes, update_votes_count_after_update.
  destruct (votes d !! vid); [|done]. simpl.
  case_decide; [by rewrite recompute_counts_eq | done].
Qed.

Lemma INSERT_INTO_votes_eq uid fid vt d :
  INSERT_INTO_votes uid fid vt d
  = let d0 := set_votes_auto_increment (votes_auto_increment d + 1) d in
    if decide (is_Some (votes d !! votes_auto_increment d))
    then (inl ER_DUP_ENTRY, d0)
    else if decide (select_votes_of_user_feature uid fid (votes d) ≠ [])
    then (inl ER_DUP_ENTRY, d0)
    else if decide (uid ∉ users d) then (inl ER_NO_REFERENCED_ROW_2, d0)
    else if decide (features d !! fid = None) then (inl ER_NO_REFERENCED_ROW_2, d0)
    else (inr (votes_auto_increment d), inserted uid fid vt d).
Proof.
  unfold INSERT_INTO_votes, inserted, update_votes_count_after_insert.
  repeat (case_decide; [done|]).
  rewrite recompute_counts_eq. simpl.
  destruct (alter _ _ _ !! fid); [|done].
  by case_decide.
Qed.

Lemma votes_inserted uid fid vt d :
  votes (inserted uid fid vt d)
  = <[votes_auto_increment d := mk_vote uid fid vt]> (votes d).
Proof.
  unfold inserted. simpl.
  destruct (alter _ _ _ !! fid); [case_decide|]; done.
Qed.

Lemma features_inserted uid fid vt d :
  features (inserted uid fid vt d)
  = alter (with_counts
             (count_votes fid upvote
                (<[votes_auto_increment d := mk_vote uid fid vt]> (votes d)))
             (count_votes fid downvote
                (<[votes_auto_increment d := mk_vote uid fid vt]> (votes d))))
          fid (features d).
Proof.
  unfold inserted. simpl.
  destruct (alter _ _ _ !! fid); [case_decide|]; done.
Qed.

(** *** Each statement keeps the invariant *)

Lemma DELETE_FROM_votes_consistent vid d :
  counters_consistent d → counters_consistent (DELETE_FROM_votes vid d).2.
Proof.
  intros Hd. rewrite DELETE_FROM_votes_eq.
  destruct (votes d !! vid) as [OLD|] eqn:Hvid; [|done]. simpl.
  apply recomputed_consistent. simpl. intros g f Hne Hf.
  apply (feature_consistent_ext g f (votes d)); [|by apply Hd].
  intros i v Hg. rewrite lookup_delete_Some.
  split; [|tauto]. intros Hi. split; [|done]. congruence.
Qed.

Lemma UPDATE_votes_consistent vt vid d :
  counters_consistent d → counters_consistent (UPDATE_votes vt vid d).2.
Proof.
  intros Hd. rewrite UPDATE_votes_eq.
  destruct (votes d !! vid) as [OLD|] eqn:Hvid; [|done]. simpl.
  case_decide as Hvt.
  - apply recomputed_consistent. simpl. intros g f Hne Hf.
    apply (feature_consistent_ext g f (votes d)); [|by apply Hd].
    intros i v Hg. rewrite lookup_insert_Some.
    split.
    + intros Hi. right. split; [|done]. congruence.
    + intros [[_ <-]|[_ Hi]]; [done | done].
  - apply (counters_consistent_ext d); [done| |done]. simpl.
    apply insert_id. rewrite Hvid. f_equal. destruct OLD as [u g t]. simpl in *.
    f_equal. by destruct (decide (t = vt)).
Qed.

Lemma INSERT_INTO_votes_consistent uid fid vt d :
  counters_consistent d → counters_consistent (INSERT_INTO_votes uid fid vt d).2.
Proof.
  intros Hd. rewrite INSERT_INTO_votes_eq.
  case_decide as Hfresh; [done|]. repeat (case_decide; [done|]). simpl.
  intros g f. rewrite features_inserted, votes_inserted.
  set (vs' := <[votes_auto_increment d := mk_vote uid fid vt]> (votes d)).
  destruct (decide (fid = g)) as [<-|Hne].
  - rewrite lookup_alter_eq. destruct (features d !! fid); simpl; [|done].
    by intros [= <-].
  - rewrite lookup_alter_ne by done. intros Hf.
    apply (feature_consistent_ext g f (votes d)); [|by apply Hd].
    intros i v Hg. unfold vs'. rewrite lookup_insert_Some.
    split.
    + intros Hi. right. split; [|done]. intros <-. apply Hfresh. by exists v.
    + intros [[_ <-]|[_ Hi]]; [done | done].
Qed.

(** *** Each handler keeps the invariant *)

(** Transfers a fact [P (stmt d).2] about a statement to the branch of the
    handler that destructs the statement's result. *)
Ltac statement_result fact :=
  match goal with
  | |- context [match ?stmt ?d with _ => _ end] =>
      let H := fresh "Hstmt" in
      pose proof fact as H;
      destruct (stmt d) as [[?|?] ?]; simpl in H |- *; exact H
  end.

Lemma cast_vote_execute_consistent userId fid vt dec d :
  counters_consistent d →
  counters_consistent (cast_vote_execute userId fid vt dec d).2.
Proof.
  intros Hd. destruct dec as [id|id|]; simpl.
  - statement_result (DELETE_FROM_votes_consistent id d Hd).
  - statement_result (UPDATE_votes_consistent vt id d Hd).
  - statement_result (INSERT_INTO_votes_consistent userId fid vt d Hd).
Qed.

(** Also under interference between the reads and the write: the write's
    trigger recomputes from the ledger it writes to. *)
Lemma cast_vote_at_consistent userId fid vt d_read d_write :
  counters_consistent d_write →
  counters_consistent (cast_vote_at userId fid vt d_read d_write).2.
Proof.
  intros Hd. unfold cast_vote_at.
  destruct (cast_vote_checks userId fid d_read); [done|].
  by apply cast_vote_execute_consistent.
Qed.

Lemma update_vote_consistent voteId userId vt d :
  counters_consistent d → counters_consistent (update_vote voteId userId vt d).2.
Proof.
  intros Hd. unfold update_vote.
  destruct (select_vote_of_user voteId userId (votes d)); [|done].
  case_decide; [done|].
  statement_result (UPDATE_votes_consistent vt voteId d Hd).
Qed.

Lemma remove_vote_consistent voteId userId d :
  counters_consistent d → counters_consistent (remove_vote voteId userId d).2.
Proof.
  intros Hd. unfold remove_vote.
  destruct (select_vote_of_user voteId userId (votes d)); [|done].
  statement_result (DELETE_FROM_votes_consistent voteId d Hd).
Qed.

Lemma bulk_operation_consistent userId op d :
  counters_consistent d → counters_consistent (bulk_operation userId op d).2.
Proof.
  intros Hd. unfold bulk_operation.
  destruct (op_action op).
  - destruct (truthy (op_feature_id op)) as [fid|]; [|done].
    destruct (op_vote_type op) as [vt|]; [|done].
    statement_result (INSERT_INTO_votes_consistent userId fid vt d Hd).
  - destruct (truthy (op_vote_id op)) as [vid|]; [|done].
    destruct (op_vote_type op) as [vt|]; [|done].
    statement_result (UPDATE_votes_consistent vt vid d Hd).
  - destruct (truthy (op_vote_id op)) as [vid|]; [|done].
    statement_result (DELETE_FROM_votes_consistent vid d Hd).
Qed.

Lemma bulk_operations_consistent userId ops :
  ∀ d, counters_consistent d →
       counters_consistent (bulk_operations userId ops d).2.
Proof.
  induction ops as [|op ops IH]; intros d Hd; [done|]. simpl.
  pose proof (bulk_operation_consistent userId op d Hd) as H1.
  destruct (bulk_operation userId op d) as [r d1]. simpl in H1.
  specialize (IH d1 H1).
  destruct (bulk_operations userId ops d1) as [rs d2]. exact IH.
Qed.

Lemma bulk_votes_consistent userId userRole ops d :
  counters_consistent d →
  counters_consistent (bulk_votes userId userRole ops d).2.
Proof.
  intros Hd. unfold bulk_votes. case_decide; [done|].
  pose proof (bulk_operations_consistent userId ops d Hd) as H1.
  destruct (bulk_operations userId ops d) as [rs d']. exact H1.
Qed.

Lemma handle_consistent r d :
  counters_consistent d → counters_consistent (handle r d).2.
Proof.
  intros Hd. destruct r; simpl.
  - by apply cast_vote_at_consistent.
  - by apply update_vote_consistent.
  - by apply remove_vote_consistent.
  - by apply bulk_votes_consistent.
Qed.

(** A database without votes whose features carry the column default 0 in
    all three counters satisfies the invariant. *)
Lemma no_votes_consistent d :
  votes d = ∅ →
  (∀ fid f, features d !! fid = Some f →
            votes_count f = 0 ∧ upvotes_count f = 0 ∧ downvotes_count f = 0) →
  counters_consistent d.
Proof.
  intros Hv Hf fid f Hfid. destruct (Hf fid f Hfid) as (Hn & Hu & Hd).
  unfold feature_consistent, count_votes.
  rewrite Hv, !map_filter_empty, !map_size_empty. lia.
Qed.

(** ** C1: counters equal the ledger aggregate *)

(** C1.  Starting from a database in which every feature's counters equal
    the aggregate over its vote rows ([upvotes_count] the number of its
    upvote rows, [downvotes_count] the number of its downvote rows,
    [votes_count] their difference), the same holds after every request of
    any sequence of vote operations (cast, update, remove, bulk), and
    inside a bulk request after every operation of the batch. *)
Theorem counters_equal_ledger_aggregate (rs : list request) (d : db) :
  counters_consistent d →
  Forall (λ d', ∀ fid f, features d' !! fid = Some f →
                  upvotes_count f = count_votes fid upvote (votes d') ∧
                  downvotes_count f = count_votes fid downvote (votes d') ∧
                  votes_count f = upvotes_count f - downvotes_count f)
         (states_after rs d) ∧
  ∀ userId ops, Forall counters_consistent (bulk_states_after userId ops d).
Proof.
  intros Hd. split.
  - revert d Hd. induction rs as [|r rs IH]; intros d Hd; simpl.
    + constructor.
    + pose proof (handle_consistent r d Hd) as Hd'.
      constructor; [exact Hd' | by apply IH].
  - intros userId ops. revert d Hd.
    induction ops as [|op ops IH]; intros d Hd; simpl.
    + constructor.
    + pose proof (bulk_operation_consistent userId op d Hd) as Hd'.
      constructor; [exact Hd' | by apply IH].
Qed.

Lemma scenario_db_consistent : counters_consistent scenario_db.
Proof.
  apply no_votes_consistent; [done|].
  intros fid f. unfold scenario_db. simpl.
  rewrite lookup_singleton_Some. by intros [_ <-].
Defined.

Lemma counters_equal_ledger_aggregate_witness :
  Forall (λ d', ∀ fid f, features d' !! fid = Some f →
                  upvotes_count f = count_votes fid upvote (votes d') ∧
                  downvotes_count f = count_votes fid downvote (votes d') ∧
                  votes_count f = upvotes_count f - downvotes_count f)
         (states_after scenario_requests scenario_db) ∧
  ∀ userId ops, Forall counters_consistent (bulk_states_after userId ops scenario_db).
Proof.
  apply (counters_equal_ledger_aggregate scenario_requests scenario_db).
  exact scenario_db_consistent.
Defined.

(** ** The lookup of the caller's existing vote *)

Lemma select_votes_of_user_feature_nil uid fid vs :
  select_votes_of_user_feature uid fid vs = [] ↔ no_vote_of uid fid vs.
Proof.
  unfold select_votes_of_user_feature, no_vote_of.
  rewrite map_to_list_empty_iff. apply map_empty_filter.
Qed.

Lemma select_votes_of_user_feature_unique uid fid vs i v :
  unique_user_feature_vote vs →
  vs !! i = Some v → v_user_id v = uid → v_feature_id v = fid →
  select_votes_of_user_feature uid fid vs = [(i, v)].
Proof.
  intros Huniq Hi Hu Hf. unfold select_votes_of_user_feature.
  rewrite <- map_to_list_singleton. f_equal.
  apply map_eq. intros j. apply option_eq. intros w.
  rewrite map_lookup_filter_Some, lookup_singleton_Some. simpl. split.
  - intros (Hj & Hu' & Hf').
    assert (i = j) as <- by (apply (Huniq i v Hi j w Hj); congruence).
    split; [done | congruence].
  - intros [<- <-]. done.
Qed.

Lemma ledger_wf_fresh d : ledger_wf d → votes d !! votes_auto_increment d = None.
Proof.
  intros [_ Hlt]. destruct (votes d !! votes_auto_increment d) as [v|] eqn:Hv; [|done].
  specialize (Hlt _ _ Hv). simpl in Hlt. lia.
Qed.

Lemma cast_vote_checks_pass userId fid d f :
  features d !! fid = Some f → f_status f ≠ archived → f_user_id f ≠ userId →
  cast_vote_checks userId fid d = None.
Proof.
  intros Hf Hst Hown. unfold cast_vote_checks. rewrite Hf.
  by rewrite !decide_False.
Qed.

Lemma INSERT_INTO_votes_ok uid fid vt d :
  ledger_wf d → no_vote_of uid fid (votes d) → uid ∈ users d →
  is_Some (features d !! fid) →
  INSERT_INTO_votes uid fid vt d
  = (inr (votes_auto_increment d), inserted uid fid vt d).
Proof.
  intros Hwf Hno Hu [f Hf]. rewrite INSERT_INTO_votes_eq.
  rewrite decide_False by (rewrite ledger_wf_fresh by done; by intros [? ?]).
  rewrite decide_False
    by (intros Hne; apply Hne; by apply select_votes_of_user_feature_nil).
  rewrite decide_False by (intros Hne; by apply Hne).
  rewrite decide_False by (by rewrite Hf). done.
Qed.

(** ** The table constraints of [votes] are kept

    The unique key and the AUTO_INCREMENT bound hold after every request, so
    the theorems below that assume [ledger_wf] apply to every database the
    service can reach. *)

Lemma ledger_wf_unfold d :
  ledger_wf d ↔
  (∀ i v j w, votes d !! i = Some v → votes d !! j = Some w →
              v_user_id v = v_user_id w → v_feature_id v = v_feature_id w → i = j) ∧
  (∀ i v, votes d !! i = Some v → i < votes_auto_increment d).
Proof.
  unfold ledger_wf, unique_user_feature_vote, map_Forall. split.
  - intros [Hu Hlt]. split; [|done]. intros i v j w Hi Hj. by apply (Hu i v Hi j w Hj).
  - intros [Hu Hlt]. split; [|done]. intros i v Hi j w Hj. by apply (Hu i v j w).
Qed.

Lemma DELETE_FROM_votes_wf vid d :
  ledger_wf d → ledger_wf (DELETE_FROM_votes vid d).2.
Proof.
  rewrite DELETE_FROM_votes_eq.
  destruct (votes d !! vid) as [OLD|] eqn:Hvid; [|done].
  rewrite !ledger_wf_unfold. simpl. intros [Hu Hlt]. split.
  - intros i v j w [_ Hi]%lookup_delete_Some [_ Hj]%lookup_delete_Some.
    by apply Hu.
  - intros i v [_ Hi]%lookup_delete_Some. by apply (Hlt i v).
Qed.

Lemma UPDATE_votes_wf vt vid d :
  ledger_wf d → ledger_wf (UPDATE_votes vt vid d).2.
Proof.
  rewrite UPDATE_votes_eq.
  destruct (votes d !! vid) as [OLD|] eqn:Hvid; [|done].
  rewrite !ledger_wf_unfold. intros [Hu Hlt].
  assert (∀ i v, <[vid := mk_vote (v_user_id OLD) (v_feature_id OLD) vt]> (votes d) !! i
                 = Some v →
                 ∃ v0, votes d !! i = Some v0 ∧ v_user_id v0 = v_user_id v ∧
                       v_feature_id v0 = v_feature_id v) as Hback.
  { intros i v [[<- <-]|[_ Hi]]%lookup_insert_Some; by eexists. }
  simpl. case_decide; simpl; split.
  all: try (intros i v j w (v0 & Hi & Hiu & Hif)%Hback (w0 & Hj & Hju & Hjf)%Hback ? ?;
            apply (Hu i v0 j w0); congruence).
  all: intros i v (v0 & Hi & _)%Hback; by apply (Hlt i v0).
Qed.

Lemma ledger_wf_consumed_id d :
  ledger_wf d → ledger_wf (set_votes_auto_increment (votes_auto_increment d + 1) d).
Proof.
  rewrite !ledger_wf_unfold. simpl. intros [Hu Hlt]. split; [done|].
  intros i v Hi. specialize (Hlt i v Hi). lia.
Qed.

Lemma INSERT_INTO_votes_wf uid fid vt d :
  ledger_wf d → ledger_wf (INSERT_INTO_votes uid fid vt d).2.
Proof.
  intros Hwf. rewrite INSERT_INTO_votes_eq. cbv zeta.
  case_decide as Hfresh; [by apply ledger_wf_consumed_id|].
  case_decide as Hsel; [by apply ledger_wf_consumed_id|].
  repeat (case_decide; [by apply ledger_wf_consumed_id|]).
  apply select_votes_of_user_feature_nil in Hsel.
  revert Hwf. rewrite !ledger_wf_unfold. intros [Hu Hlt].
  cbn [snd]. rewrite votes_inserted.
  assert (votes_auto_increment (inserted uid fid vt d) = votes_auto_increment d + 1)
    as -> by (unfold inserted; simpl; destruct (alter _ _ _ !! fid); [case_decide|]; done).
  split.
  - intros i v j w Hi Hj Hsame_u Hsame_f.
    apply lookup_insert_Some in Hi as [[<- <-]|[Hne_i Hi]];
      apply lookup_insert_Some in Hj as [[<- <-]|[Hne_j Hj]]; simpl in *.
    + done.
    + exfalso. by apply (Hsel j w Hj).
    + exfalso. by apply (Hsel i v Hi).
    + by apply (Hu i v j w).
  - intros i v [[<- <-]|[_ Hi]]%lookup_insert_Some; [lia|].
    specialize (Hlt i v Hi). lia.
Qed.

Lemma bulk_operation_wf userId op d :
  ledger_wf d → ledger_wf (bulk_operation userId op d).2.
Proof.
  intros Hd. unfold bulk_operation.
  destruct (op_action op).
  - destruct (truthy (op_feature_id op)) as [fid|]; [|done].
    destruct (op_vote_type op) as [vt|]; [|done].
    statement_result (INSERT_INTO_votes_wf userId fid vt d Hd).
  - destruct (truthy (op_vote_id op)) as [vid|]; [|done].
    destruct (op_vote_type op) as [vt|]; [|done].
    statement_result (UPDATE_votes_wf vt vid d Hd).
  - destruct (truthy (op_vote_id op)) as [vid|]; [|done].
    statement_result (DELETE_FROM_votes_wf vid d Hd).
Qed.

Lemma bulk_operations_wf userId ops :
  ∀ d, ledger_wf d → ledger_wf (bulk_operations userId ops d).2.
Proof.
  induction ops as [|op ops IH]; intros d Hd; [done|]. simpl.
  pose proof (bulk_operation_wf userId op d Hd) as H1.
  destruct (bulk_operation userId op d) as [r d1]. simpl in H1.
  specialize (IH d1 H1).
  destruct (bulk_operations userId ops d1) as [rs d2]. exact IH.
Qed.

(** Uniqueness of (user_id, feature_id) survives every request. *)
Lemma handle_ledger_wf r d : ledger_wf d → ledger_wf (handle r d).2.
Proof.
  intros Hd. destruct r as [userId fid vt|voteId userId vt|voteId userId|userId role ops];
    simpl.
  - unfold cast_vote, cast_vote_at.
    destruct (cast_vote_checks userId fid d); [done|].
    destruct (cast_vote_decide userId fid vt d) as [id|id|]; simpl.
    + statement_result (DELETE_FROM_votes_wf id d Hd).
    + statement_result (UPDATE_votes_wf vt id d Hd).
    + statement_result (INSERT_INTO_votes_wf userId fid vt d Hd).
  - unfold update_vote.
    destruct (select_vote_of_user voteId userId (votes d)); [|done].
    case_decide; [done|]. statement_result (UPDATE_votes_wf vt voteId d Hd).
  - unfold remove_vote.
    destruct (select_vote_of_user voteId userId (votes d)); [|done].
    statement_result (DELETE_FROM_votes_wf voteId d Hd).
  - unfold bulk_votes. case_decide; [done|].
    pose proof (bulk_operations_wf userId ops d Hd) as H1.
    destruct (bulk_operations userId ops d) as [rs d']. exact H1.
Qed.

(** ** C2: the three-way branch of cast_vote *)

(** C2.  When the feature exists, is not archived and is not the caller's
    own, in a database that satisfies the constraints of its schema (the
    caller is a row of [users], as the foreign key of [votes] asks, and
    [votes] has its unique key and an AUTO_INCREMENT counter above the ids
    in use):
    with no vote row of the caller on the feature, a row with the given type
    is inserted and the action is [created]; with a row of the same type,
    that row is deleted, the action is [removed] and the returned vote type
    is null; with a row of the other type, that row's type is changed in
    place and the action is [updated]. *)
Theorem cast_vote_create_remove_update
    (userId fid : Z) (vt : vote_type) (d : db) (f : feature) :
  features d !! fid = Some f → f_status f ≠ archived → f_user_id f ≠ userId →
  userId ∈ users d → ledger_wf d →
  let r := cast_vote userId fid vt d in
  (no_vote_of userId fid (votes d) →
     votes r.2 = <[votes_auto_increment d := mk_vote userId fid vt]> (votes d) ∧
     r.1 = json_vote (mk_vote_data (Some (votes_auto_increment d)) created
                        (Some vt) fid (ledger_counts fid (votes r.2)))) ∧
  (∀ i v, votes d !! i = Some v → v_user_id v = userId → v_feature_id v = fid →
     (v_vote_type v = vt →
        votes r.2 = delete i (votes d) ∧
        r.1 = json_vote (mk_vote_data None removed None fid
                           (ledger_counts fid (votes r.2)))) ∧
     (v_vote_type v ≠ vt →
        votes r.2 = <[i := mk_vote userId fid vt]> (votes d) ∧
        r.1 = json_vote (mk_vote_data (Some i) updated (Some vt) fid
                           (ledger_counts fid (votes r.2))))).
Proof.
  intros Hf Hst Hown Huser Hwf. simpl.
  unfold cast_vote, cast_vote_at, cast_vote_decide.
  rewrite (cast_vote_checks_pass userId fid d f) by done.
  split.
  - intros Hno.
    rewrite (proj2 (select_votes_of_user_feature_nil userId fid (votes d)) Hno).
    unfold cast_vote_execute.
    rewrite INSERT_INTO_votes_ok by (try done; by exists f).
    cbn [fst snd]. rewrite votes_inserted. split; [done|].
    unfold cast_vote_respond. by rewrite votes_inserted.
  - intros i v Hi Hu Hfid.
    rewrite (select_votes_of_user_feature_unique userId fid (votes d) i v)
      by (try done; apply Hwf).
    split; intros Hvt.
    + rewrite decide_True by done. simpl.
      rewrite DELETE_FROM_votes_eq, Hi. done.
    + rewrite decide_False by done. simpl.
      rewrite UPDATE_votes_eq, Hi. simpl. rewrite Hu, Hfid.
      case_decide; done.
Qed.

Lemma one_vote_db_wf : ledger_wf one_vote_db.
Proof. apply (bool_decide_unpack _). vm_compute. exact I. Defined.

Lemma cast_vote_create_remove_update_witness :
  let r := cast_vote 2 10 upvote one_vote_db in
  (no_vote_of 2 10 (votes one_vote_db) →
     votes r.2 = <[votes_auto_increment one_vote_db := mk_vote 2 10 upvote]>
                   (votes one_vote_db) ∧
     r.1 = json_vote (mk_vote_data (Some (votes_auto_increment one_vote_db)) created
                        (Some upvote) 10 (ledger_counts 10 (votes r.2)))) ∧
  (∀ i v, votes one_vote_db !! i = Some v → v_user_id v = 2 → v_feature_id v = 10 →
     (v_vote_type v = upvote →
        votes r.2 = delete i (votes one_vote_db) ∧
        r.1 = json_vote (mk_vote_data None removed None 10
                           (ledger_counts 10 (votes r.2)))) ∧
     (v_vote_type v ≠ upvote →
        votes r.2 = <[i := mk_vote 2 10 upvote]> (votes one_vote_db) ∧
        r.1 = json_vote (mk_vote_data (Some i) updated (Some upvote) 10
                           (ledger_counts 10 (votes r.2))))).
Proof.
  apply (cast_vote_create_remove_update 2 10 upvote one_vote_db
           (mk_feature 1 pending 1 1 0)).
  - reflexivity.
  - simpl. discriminate.
  - simpl. lia.
  - apply (bool_decide_unpack _). vm_compute. exact I.
  - exact one_vote_db_wf.
Defined.

(** ** C7: no self-vote *)

(** C7.  A cast by the owner of the feature is answered 400 "Cannot vote on
    your own feature", whatever the vote type, the feature's status or the
    ledger; no vote row is written and the feature row, with its three
    counters, stays as it was. *)
Theorem cast_vote_own_feature_rejected
    (userId fid : Z) (vt : vote_type) (d : db) (f : feature) :
  features d !! fid = Some f → f_user_id f = userId →
  let r := cast_vote userId fid vt d in
  r.1 = json_error 400 "Cannot vote on your own feature" ∧
  votes r.2 = votes d ∧
  features r.2 !! fid = Some f ∧
  r.2 = d.
Proof.
  intros Hf Hown. unfold cast_vote, cast_vote_at, cast_vote_checks.
  rewrite Hf. rewrite decide_True by done. simpl. by rewrite Hf.
Qed.

Lemma cast_vote_own_feature_rejected_witness :
  let r := cast_vote 1 10 upvote one_vote_db in
  r.1 = json_error 400 "Cannot vote on your own feature" ∧
  votes r.2 = votes one_vote_db ∧
  features r.2 !! 10 = Some (mk_feature 1 pending 1 1 0) ∧
  r.2 = one_vote_db.
Proof.
  apply (cast_vote_own_feature_rejected 1 10 upvote one_vote_db
           (mk_feature 1 pending 1 1 0)); reflexivity.
Defined.

(** ** C8: archived features *)

(** C8, as stated, fails for the owner: the self-vote check of line 171 runs
    before the archived check of line 179. *)
Lemma cast_vote_archived_owner_counterexample :
  features archived_db !! 10 = Some (mk_feature 1 archived 1 1 0) ∧
  (cast_vote 1 10 upvote archived_db).1
    = json_error 400 "Cannot vote on your own feature" ∧
  (cast_vote 1 10 upvote archived_db).1
    ≠ json_error 400 "Cannot vote on archived features".
Proof. split; [reflexivity|]. split; [reflexivity|]. vm_compute. discriminate. Qed.

(** C8, amended.  On an archived feature every cast is answered 400 and
    changes nothing, whatever votes the ledger holds: for a caller other
    than the owner the message is "Cannot vote on archived features", for
    the owner it is "Cannot vote on your own feature". *)
Theorem cast_vote_archived_rejected
    (userId fid : Z) (vt : vote_type) (d : db) (f : feature) :
  features d !! fid = Some f → f_status f = archived →
  let r := cast_vote userId fid vt d in
  r.2 = d ∧ status_of r.1 = 400 ∧
  (f_user_id f ≠ userId →
     r.1 = json_error 400 "Cannot vote on archived features") ∧
  (f_user_id f = userId →
     r.1 = json_error 400 "Cannot vote on your own feature").
Proof.
  intros Hf Hst. unfold cast_vote, cast_vote_at, cast_vote_checks.
  rewrite Hf. destruct (decide (f_user_id f = userId)) as [Hown|Hown]; simpl.
  - done.
  - rewrite decide_True by done. done.
Qed.

Lemma cast_vote_archived_rejected_witness :
  let r := cast_vote 2 10 upvote archived_db in
  r.2 = archived_db ∧ status_of r.1 = 400 ∧
  (f_user_id (mk_feature 1 archived 1 1 0) ≠ 2 →
     r.1 = json_error 400 "Cannot vote on archived features") ∧
  (f_user_id (mk_feature 1 archived 1 1 0) = 2 →
     r.1 = json_error 400 "Cannot vote on your own feature").
Proof.
  apply (cast_vote_archived_rejected 2 10 upvote archived_db
           (mk_feature 1 archived 1 1 0)); reflexivity.
Defined.

(** ** C9: a missing vote and another user's vote look the same *)

(** C9.  For PUT /votes/:id and DELETE /votes/:id, the answer in a database
    where the vote id does not exist and the answer in a database where the
    vote exists but belongs to another user are the same 404 "Vote not found
    or access denied"; neither run changes its database. *)
Theorem vote_not_found_indistinguishable
    (voteId userId : Z) (vt : vote_type) (d1 d2 : db) (v : vote) :
  votes d1 !! voteId = None →
  votes d2 !! voteId = Some v → v_user_id v ≠ userId →
  (update_vote voteId userId vt d1).1 = (update_vote voteId userId vt d2).1 ∧
  (update_vote voteId userId vt d1).1
    = json_error 404 "Vote not found or access denied" ∧
  (remove_vote voteId userId d1).1 = (remove_vote voteId userId d2).1 ∧
  (remove_vote voteId userId d1).1
    = json_error 404 "Vote not found or access denied" ∧
  (update_vote voteId userId vt d1).2 = d1 ∧
  (update_vote voteId userId vt d2).2 = d2 ∧
  (remove_vote voteId userId d1).2 = d1 ∧
  (remove_vote voteId userId d2).2 = d2.
Proof.
  intros H1 H2 Hother.
  unfold update_vote, remove_vote, select_vote_of_user.
  rewrite H1, H2. rewrite decide_False by done. done.
Qed.

Lemma vote_not_found_indistinguishable_witness :
  (update_vote 1 3 downvote scenario_db).1
    = (update_vote 1 3 downvote one_vote_db).1 ∧
  (update_vote 1 3 downvote scenario_db).1
    = json_error 404 "Vote not found or access denied" ∧
  (remove_vote 1 3 scenario_db).1 = (remove_vote 1 3 one_vote_db).1 ∧
  (remove_vote 1 3 scenario_db).1
    = json_error 404 "Vote not found or access denied" ∧
  (update_vote 1 3 downvote scenario_db).2 = scenario_db ∧
  (update_vote 1 3 downvote one_vote_db).2 = one_vote_db ∧
  (remove_vote 1 3 scenario_db).2 = scenario_db ∧
  (remove_vote 1 3 one_vote_db).2 = one_vote_db.
Proof.
  apply (vote_not_found_indistinguishable 1 3 downvote scenario_db one_vote_db
           (mk_vote 2 10 upvote)).
  - reflexivity.
  - reflexivity.
  - simpl. lia.
Defined.

(** ** C3: vote edits and removals on archived features *)

(** C3 does not hold of the handlers.  On the archived feature 10,
    PUT /votes/1 and DELETE /votes/1 by the voter go through and change the
    ledger and the counters: neither handler reads the feature's status,
    while POST /votes refuses the same change of the same vote. *)
Lemma update_remove_vote_on_archived_feature :
  features archived_db !! 10 = Some (mk_feature 1 archived 1 1 0) ∧
  (update_vote 1 2 downvote archived_db).1
    = json_vote_updated (Some (1, mk_vote 2 10 downvote)) ∧
  votes (update_vote 1 2 downvote archived_db).2 !! 1
    = Some (mk_vote 2 10 downvote) ∧
  features (update_vote 1 2 downvote archived_db).2 !! 10
    = Some (mk_feature 1 archived (-1) 0 1) ∧
  (remove_vote 1 2 archived_db).1 = json_vote_deleted ∧
  votes (remove_vote 1 2 archived_db).2 !! 1 = None ∧
  (cast_vote 2 10 downvote archived_db).1
    = json_error 400 "Cannot vote on archived features".
Proof. vm_compute. repeat split; reflexivity. Qed.

(** ** C4: a uniqueness violation at the insert *)

(** C4, as stated, fails: the insert of the second request is rejected by
    the unique key, a replay on the re-read ledger would succeed (it removes
    the vote), and yet the handler answers 500. *)
Lemma cast_vote_duplicate_counterexample :
  (INSERT_INTO_votes 2 10 upvote raced_db).1 = inl ER_DUP_ENTRY ∧
  status_of (cast_vote_with_retry_spec 2 10 upvote scenario_db raced_db).1 = 200 ∧
  (cast_vote_at 2 10 upvote scenario_db raced_db).1
    = json_error 500 "Internal server error" ∧
  (cast_vote_at 2 10 upvote scenario_db raced_db).1
    ≠ (cast_vote_with_retry_spec 2 10 upvote scenario_db raced_db).1.
Proof. vm_compute. repeat split; (reflexivity || discriminate). Qed.

(** A rejected insert changes no row. *)
Lemma INSERT_INTO_votes_failed uid fid vt d e :
  (INSERT_INTO_votes uid fid vt d).1 = inl e →
  votes (INSERT_INTO_votes uid fid vt d).2 = votes d ∧
  features (INSERT_INTO_votes uid fid vt d).2 = features d.
Proof.
  rewrite INSERT_INTO_votes_eq. cbv zeta. repeat (case_decide; [done|]). done.
Qed.

(** C4, amended.  When the reads of cast_vote pass the checks and find no
    vote of the caller, and the insert is then rejected by the unique key
    on (user_id, feature_id), the handler does not retry: it answers
    500 "Internal server error", and the vote rows and the feature rows
    (counters included) stay as the insert found them. *)
Theorem cast_vote_duplicate_is_500
    (userId fid : Z) (vt : vote_type) (d_read d_write : db) :
  cast_vote_checks userId fid d_read = None →
  cast_vote_decide userId fid vt d_read = insert_new →
  (INSERT_INTO_votes userId fid vt d_write).1 = inl ER_DUP_ENTRY →
  let r := cast_vote_at userId fid vt d_read d_write in
  r.1 = json_error 500 "Internal server error" ∧
  votes r.2 = votes d_write ∧
  features r.2 = features d_write.
Proof.
  intros Hchecks Hdec Hdup. simpl. unfold cast_vote_at. rewrite Hchecks, Hdec. simpl.
  pose proof (INSERT_INTO_votes_failed _ _ _ _ _ Hdup) as Hsame.
  destruct (INSERT_INTO_votes userId fid vt d_write) as [[e|id] d']; simpl in *.
  - by simplify_eq.
  - done.
Qed.

Lemma cast_vote_duplicate_is_500_witness :
  let r := cast_vote_at 2 10 upvote scenario_db raced_db in
  r.1 = json_error 500 "Internal server error" ∧
  votes r.2 = votes raced_db ∧
  features r.2 = features raced_db.
Proof.
  apply (cast_vote_duplicate_is_500 2 10 upvote scenario_db raced_db);
    vm_compute; reflexivity.
Defined.

(** ** C5: a bulk update of a vote id that does not exist *)

Lemma bulk_operations_length userId ops :
  ∀ d, length (bulk_operations userId ops d).1 = length ops.
Proof.
  induction ops as [|op ops IH]; intros d; [done|]. simpl.
  destruct (bulk_operation userId op d) as [r d1].
  specialize (IH d1). destruct (bulk_operations userId ops d1) as [rs d2].
  simpl in *. by rewrite IH.
Qed.

(** C5.  The claim holds of the sibling handlers and fails in the bulk
    runner.  For an administrator's batch of a valid create, an update of a
    vote id that has no row, and a valid delete, the runner returns three
    results and does not stop at the second, and the first and the third are
    marked [success: true] as the claim says; but the second is marked
    [success: true] as well, with no error, because the runner never looks
    at the number of rows the UPDATE matched.  PUT /votes/:id, asked for the
    same change of the same vote id on the database the update ran on,
    answers 404. *)
Theorem bulk_update_missing_vote
    (userId fid vid del : Z) (vt1 vt2 : vote_type) (ofid ouid : option Z)
    (d : db) :
  let op1 := mk_bulk_op op_create (Some fid) None (Some vt1) None in
  let op2 := mk_bulk_op op_update ofid (Some vid) (Some vt2) ouid in
  let op3 := mk_bulk_op op_delete None (Some del) None None in
  let NEW_id := votes_auto_increment d in
  ledger_wf d → userId ∈ users d →
  fid ≠ 0 → is_Some (features d !! fid) → no_vote_of userId fid (votes d) →
  vid ≠ 0 → vid ≠ NEW_id → votes d !! vid = None →
  del ≠ 0 → is_Some (votes d !! del) →
  ∃ d',
    bulk_votes userId "admin" [op1; op2; op3] d
    = (json_bulk 3 3
         [ mk_bulk_result op1 true (Some NEW_id) None;
           mk_bulk_result op2 true None None;
           mk_bulk_result op3 true None None ], d') ∧
    votes d' = delete del (<[NEW_id := mk_vote userId fid vt1]> (votes d)) ∧
    (bulk_operation userId op2 (bulk_operation userId op1 d).2).2
    = (bulk_operation userId op1 d).2 ∧
    update_vote vid userId vt2 (bulk_operation userId op1 d).2
    = (json_error 404 "Vote not found or access denied",
       (bulk_operation userId op1 d).2).
Proof.
  intros op1 op2 op3 NEW_id Hwf Hu Hfid Hf Hno Hvid Hnew Hnone Hdel [OLD HOLD].
  assert (bulk_operation userId op1 d
          = (mk_bulk_result op1 true (Some NEW_id) None,
             inserted userId fid vt1 d)) as H1.
  { unfold bulk_operation. simpl. rewrite decide_False by done.
    by rewrite INSERT_INTO_votes_ok. }
  set (d1 := inserted userId fid vt1 d) in *.
  assert (votes d1 !! vid = None) as Hnone1.
  { unfold d1. rewrite votes_inserted. by rewrite lookup_insert_ne. }
  assert (votes d1 !! del = Some OLD) as HOLD1.
  { unfold d1. rewrite votes_inserted. rewrite lookup_insert_ne; [done|].
    intros <-. rewrite ledger_wf_fresh in HOLD by done. done. }
  assert (bulk_operation userId op2 d1 = (mk_bulk_result op2 true None None, d1))
    as H2.
  { unfold bulk_operation. simpl. rewrite decide_False by done.
    by rewrite UPDATE_votes_eq, Hnone1. }
  assert (bulk_operation userId op3 d1
          = (mk_bulk_result op3 true None None,
             recomputed (v_feature_id OLD) (set_votes (delete del (votes d1)) d1)))
    as H3.
  { unfold bulk_operation. simpl. rewrite decide_False by done.
    by rewrite DELETE_FROM_votes_eq, HOLD1. }
  eexists. split; [|split; [|split]].
  - unfold bulk_votes. rewrite decide_False by (intros Hne; by apply Hne).
    unfold bulk_operations. rewrite H1, H2, H3. reflexivity.
  - rewrite votes_recomputed. change (votes (set_votes ?vs _)) with vs.
    unfold d1. by rewrite votes_inserted.
  - rewrite H1. simpl. by rewrite H2.
  - rewrite H1. simpl. unfold update_vote, select_vote_of_user.
    by rewrite Hnone1.
Qed.

Lemma bulk_update_missing_vote_witness :
  ∃ d',
    bulk_votes 3 "admin" partial_batch one_vote_db
    = (json_bulk 3 3
         [ mk_bulk_result (mk_bulk_op op_create (Some 10) None (Some upvote) None)
             true (Some 2) None;
           mk_bulk_result (mk_bulk_op op_update None (Some 99) (Some downvote) None)
             true None None;
           mk_bulk_result (mk_bulk_op op_delete None (Some 1) None None)
             true None None ], d') ∧
    votes d' = delete 1 (<[2 := mk_vote 3 10 upvote]> (votes one_vote_db)) ∧
    (bulk_operation 3 (mk_bulk_op op_update None (Some 99) (Some downvote) None)
       (bulk_operation 3 (mk_bulk_op op_create (Some 10) None (Some upvote) None)
          one_vote_db).2).2
    = (bulk_operation 3 (mk_bulk_op op_create (Some 10) None (Some upvote) None)
         one_vote_db).2 ∧
    update_vote 99 3 downvote
      (bulk_operation 3 (mk_bulk_op op_create (Some 10) None (Some upvote) None)
         one_vote_db).2
    = (json_error 404 "Vote not found or access denied",
       (bulk_operation 3 (mk_bulk_op op_create (Some 10) None (Some upvote) None)
          one_vote_db).2).
Proof.
  apply (bulk_update_missing_vote 3 10 99 1 upvote downvote None None one_vote_db).
  - exact one_vote_db_wf.
  - apply (bool_decide_unpack _). vm_compute. exact I.
  - lia.
  - by eexists.
  - apply (bool_decide_unpack _). vm_compute. exact I.
  - lia.
  - vm_compute. discriminate.
  - reflexivity.
  - lia.
  - by eexists.
Defined.

(** ** C6: casting the same vote twice *)

Lemma select_votes_of_user_feature_inserted uid fid vt vs i :
  no_vote_of uid fid vs →
  select_votes_of_user_feature uid fid (<[i := mk_vote uid fid vt]> vs)
  = [(i, mk_vote uid fid vt)].
Proof.
  intros Hno. unfold select_votes_of_user_feature.
  rewrite map_filter_insert_True by done.
  rewrite (proj2 (map_empty_filter _ vs)) by exact Hno.
  rewrite insert_empty. apply map_to_list_singleton.
Qed.

(** C6.  For a user without a vote on a feature that they may vote on
    (it exists, is not archived, is not their own), two upvote casts in a
    row leave the ledger as it was, so without a row for the pair, and leave
    the feature row with the counters it had before the first cast.  The
    database before the first cast satisfies the constraints of its schema
    and the counter invariant of C1 for the feature.  The first cast answers
    [created], the second [removed]. *)
Theorem double_upvote_round_trip (userId fid : Z) (d : db) (f : feature) :
  features d !! fid = Some f → f_status f ≠ archived → f_user_id f ≠ userId →
  userId ∈ users d → ledger_wf d →
  no_vote_of userId fid (votes d) →
  feature_consistent (votes d) fid f →
  let r1 := cast_vote userId fid upvote d in
  let r2 := cast_vote userId fid upvote r1.2 in
  votes r2.2 = votes d ∧
  no_vote_of userId fid (votes r2.2) ∧
  features r2.2 !! fid = Some f ∧
  features r2.2 = features d ∧
  r1.1 = json_vote (mk_vote_data (Some (votes_auto_increment d)) created
                      (Some upvote) fid (ledger_counts fid (votes r1.2))) ∧
  r2.1 = json_vote (mk_vote_data None removed None fid
                      (ledger_counts fid (votes d))).
Proof.
  intros Hf Hst Hown Huser Hwf Hno (Hup & Hdown & Hnet). simpl.
  set (id := votes_auto_increment d).
  assert (cast_vote userId fid upvote d
          = (cast_vote_respond (Some id) created fid upvote
               (inserted userId fid upvote d), inserted userId fid upvote d))
    as ->.
  { unfold cast_vote, cast_vote_at, cast_vote_decide.
    rewrite (cast_vote_checks_pass userId fid d f) by done.
    rewrite (proj2 (select_votes_of_user_feature_nil userId fid (votes d)) Hno).
    unfold cast_vote_execute.
    by rewrite INSERT_INTO_votes_ok by (try done; by exists f). }
  cbn [fst snd].
  set (d1 := inserted userId fid upvote d).
  assert (votes d1 = <[id := mk_vote userId fid upvote]> (votes d)) as Hv1
    by apply votes_inserted.
  pose proof (features_inserted userId fid upvote d) as Hf1. fold d1 in Hf1.
  assert (votes d !! id = None) as Hfresh by by apply ledger_wf_fresh.
  assert (∃ f1, features d1 !! fid = Some f1 ∧ f_user_id f1 = f_user_id f ∧
                f_status f1 = f_status f) as (f1 & Hf1' & Hown1 & Hst1).
  { rewrite Hf1, lookup_alter_eq, Hf. simpl. by eexists. }
  unfold cast_vote, cast_vote_at, cast_vote_decide.
  rewrite (cast_vote_checks_pass userId fid d1 f1) by congruence.
  rewrite Hv1, select_votes_of_user_feature_inserted by done.
  rewrite decide_True by done.
  unfold cast_vote_execute. rewrite DELETE_FROM_votes_eq, Hv1, lookup_insert_eq.
  cbn [fst snd v_feature_id].
  rewrite votes_recomputed, features_recomputed. cbn [votes features set_votes].
  rewrite delete_insert_id by done.
  assert (alter (with_counts (count_votes fid upvote (votes d))
                   (count_votes fid downvote (votes d))) fid (features d1)
          = features d) as Hback.
  { rewrite Hf1. apply map_eq. intros g. destruct (decide (fid = g)) as [<-|Hne].
    - rewrite !lookup_alter_eq, Hf. simpl. f_equal.
      destruct f as [o st n u dn]. unfold with_counts. simpl in *. by subst.
    - by rewrite !lookup_alter_ne. }
  rewrite Hback.
  repeat split; try done.
  unfold cast_vote_respond. by rewrite Hv1.
Qed.

Lemma double_upvote_round_trip_witness :
  let r1 := cast_vote 3 10 upvote one_vote_db in
  let r2 := cast_vote 3 10 upvote r1.2 in
  votes r2.2 = votes one_vote_db ∧
  no_vote_of 3 10 (votes r2.2) ∧
  features r2.2 !! 10 = Some (mk_feature 1 pending 1 1 0) ∧
  features r2.2 = features one_vote_db ∧
  r1.1 = json_vote (mk_vote_data (Some (votes_auto_increment one_vote_db)) created
                      (Some upvote) 10 (ledger_counts 10 (votes r1.2))) ∧
  r2.1 = json_vote (mk_vote_data None removed None 10
                      (ledger_counts 10 (votes one_vote_db))).
Proof.
  apply (double_upvote_round_trip 3 10 one_vote_db (mk_feature 1 pending 1 1 0)).
  - reflexivity.
  - simpl. discriminate.
  - simpl. lia.
  - apply (bool_decide_unpack _). vm_compute. exact I.
  - exact one_vote_db_wf.
  - apply (bool_decide_unpack _). vm_compute. exact I.
  - vm_compute. repeat split; reflexivity.
Defined.

(** ** C10: bulk create *)

(** C10.  A bulk create by an administrator goes straight to the insert
    with the administrator's own id as [user_id], whatever [user_id] the
    operation carries.  On an existing feature without a vote of the
    administrator the row is inserted for every feature row: no status
    (archived included) and no owner (the administrator included) stops it.
    An existing vote is not toggled: the insert is rejected by the unique
    key, the result is [success: false] and the ledger is unchanged.  A
    missing feature is not answered "not found": the insert is rejected by
    the foreign key and recorded as a failed operation. *)
Theorem bulk_create_unchecked
    (adminId fid : Z) (vt : vote_type) (ovid ouid : option Z) (d : db) :
  let op := mk_bulk_op op_create (Some fid) ovid (Some vt) ouid in
  let r := bulk_votes adminId "admin" [op] d in
  fid ≠ 0 → adminId ∈ users d → ledger_wf d →
  (∀ f, features d !! fid = Some f → no_vote_of adminId fid (votes d) →
     r.1 = json_bulk 1 1 [mk_bulk_result op true (Some (votes_auto_increment d)) None] ∧
     votes r.2 = <[votes_auto_increment d := mk_vote adminId fid vt]> (votes d)) ∧
  (¬ no_vote_of adminId fid (votes d) →
     r.1 = json_bulk 0 1 [mk_bulk_result op false None (Some ER_DUP_ENTRY)] ∧
     votes r.2 = votes d ∧ features r.2 = features d) ∧
  (features d !! fid = None → no_vote_of adminId fid (votes d) →
     r.1 = json_bulk 0 1 [mk_bulk_result op false None (Some ER_NO_REFERENCED_ROW_2)] ∧
     votes r.2 = votes d ∧ features r.2 = features d).
Proof.
  intros op r Hfid Hadmin Hwf. subst r. unfold bulk_votes.
  rewrite decide_False by (intros Hne; by apply Hne).
  simpl. unfold bulk_operation. simpl. unfold truthy.
  rewrite decide_False by done.
  assert (¬ is_Some (votes d !! votes_auto_increment d)) as Hfresh
    by (rewrite ledger_wf_fresh by done; by intros [? ?]).
  split; [|split].
  - intros f Hf Hno. rewrite INSERT_INTO_votes_ok by (try done; by exists f).
    cbn [fst snd]. by rewrite votes_inserted.
  - intros Hsome. rewrite INSERT_INTO_votes_eq.
    rewrite decide_False by done.
    rewrite decide_True; [done|].
    intros Hnil. apply Hsome. by apply select_votes_of_user_feature_nil.
  - intros Hnone Hno. rewrite INSERT_INTO_votes_eq.
    rewrite decide_False by done.
    rewrite decide_False
      by (intros Hne; apply Hne; by apply select_votes_of_user_feature_nil).
    rewrite decide_False by (intros Hne; by apply Hne).
    by rewrite decide_True.
Qed.

(** Feature 10 archived and owned by the administrator, user 1. *)
Lemma bulk_create_unchecked_witness :
  let op := bulk_create_own_archived in
  let r := bulk_votes 1 "admin" [op] archived_db in
  (∀ f, features archived_db !! 10 = Some f → no_vote_of 1 10 (votes archived_db) →
     r.1 = json_bulk 1 1
             [mk_bulk_result op true (Some (votes_auto_increment archived_db)) None] ∧
     votes r.2 = <[votes_auto_increment archived_db := mk_vote 1 10 upvote]>
                   (votes archived_db)) ∧
  (¬ no_vote_of 1 10 (votes archived_db) →
     r.1 = json_bulk 0 1 [mk_bulk_result op false None (Some ER_DUP_ENTRY)] ∧
     votes r.2 = votes archived_db ∧ features r.2 = features archived_db) ∧
  (features archived_db !! 10 = None → no_vote_of 1 10 (votes archived_db) →
     r.1 = json_bulk 0 1 [mk_bulk_result op false None (Some ER_NO_REFERENCED_ROW_2)] ∧
     votes r.2 = votes archived_db ∧ features r.2 = features archived_db).
Proof.
  apply (bulk_create_unchecked 1 10 upvote None (Some 2) archived_db).
  - lia.
  - apply (bool_decide_unpack _). vm_compute. exact I.
  - apply (bool_decide_unpack _). vm_compute. exact I.
Defined.

(** The administrator's vote lands on their own archived feature, under
    their id and not the id the operation carries. *)
Example bulk_create_on_own_archived_feature :
  features archived_db !! 10 = Some (mk_feature 1 archived 1 1 0) ∧
  (bulk_votes 1 "admin" [bulk_create_own_archived] archived_db).1
    = json_bulk 1 1 [mk_bulk_result bulk_create_own_archived true (Some 2) None] ∧
  votes (bulk_votes 1 "admin" [bulk_create_own_archived] archived_db).2 !! 2
    = Some (mk_vote 1 10 upvote) ∧
  (cast_vote 1 10 upvote archived_db).1
    = json_error 400 "Cannot vote on your own feature".
Proof. vm_compute. repeat split; reflexivity. Qed.

(** ** The scenario of the specification, evaluated

    Feature 10 of user 1 without votes: user 2 upvotes, user 3 downvotes,
    user 2 downvotes, user 3 downvotes again. *)
Example specification_scenario :
  let r1 := cast_vote 2 10 upvote scenario_db in
  let r2 := cast_vote 3 10 downvote r1.2 in
  let r3 := cast_vote 2 10 downvote r2.2 in
  let r4 := cast_vote 3 10 downvote r3.2 in
  r1.1 = json_vote (mk_vote_data (Some 1) created (Some upvote) 10
                      (mk_vote_counts 1 0 1)) ∧
  r2.1 = json_vote (mk_vote_data (Some 2) created (Some downvote) 10
                      (mk_vote_counts 1 1 0)) ∧
  r3.1 = json_vote (mk_vote_data (Some 1) updated (Some downvote) 10
                      (mk_vote_counts 0 2 (-2))) ∧
  r4.1 = json_vote (mk_vote_data None removed None 10
                      (mk_vote_counts 0 1 (-1))) ∧
  features r4.2 !! 10 = Some (mk_feature 1 pending (-1) 0 1).
Proof. vm_compute. repeat split; reflexivity. Qed.

(** * The read endpoints *)

Lemma select_votes_of_user_feature_elem uid fid vs i v :
  (i, v) ∈ select_votes_of_user_feature uid fid vs ↔
  vs !! i = Some v ∧ v_user_id v = uid ∧ v_feature_id v = fid.
Proof.
  unfold select_votes_of_user_feature.
  rewrite elem_of_map_to_list, map_lookup_filter_Some. done.
Qed.

Lemma select_votes_of_user_feature_cons uid fid vs i v rest :
  unique_user_feature_vote vs →
  select_votes_of_user_feature uid fid vs = (i, v) :: rest →
  vs !! i = Some v ∧ v_user_id v = uid ∧ v_feature_id v = fid ∧ rest = [].
Proof.
  intros Hu Hsel.
  assert ((i, v) ∈ select_votes_of_user_feature uid fid vs) as Hin
    by (rewrite Hsel; apply list_elem_of_here).
  apply select_votes_of_user_feature_elem in Hin as (Hi & Huid & Hfid).
  repeat split; try done.
  rewrite (select_votes_of_user_feature_unique uid fid vs i v) in Hsel by done.
  by injection Hsel.
Qed.

Lemma no_vote_of_delete uid fid vs i v :
  unique_user_feature_vote vs →
  vs !! i = Some v → v_user_id v = uid → v_feature_id v = fid →
  no_vote_of uid fid (delete i vs).
Proof.
  intros Hu Hi Huid Hfid j w [Hne Hj]%lookup_delete_Some [Hwu Hwf].
  apply Hne. apply (Hu i v Hi j w Hj); congruence.
Qed.

Lemma get_user_feature_vote_none userId fid d :
  no_vote_of userId fid (votes d) →
  get_user_feature_vote userId fid d = lookup_error 404 "Vote not found".
Proof.
  intros Hno. unfold get_user_feature_vote, select_vote_joined.
  by rewrite (proj2 (select_votes_of_user_feature_nil userId fid (votes d)) Hno).
Qed.

Lemma get_user_feature_vote_some userId fid d i v f :
  unique_user_feature_vote (votes d) →
  votes d !! i = Some v → v_user_id v = userId → v_feature_id v = fid →
  features d !! fid = Some f →
  get_user_feature_vote userId fid d = lookup_vote i v (f_status f).
Proof.
  intros Hu Hi Huid Hfid Hf. unfold get_user_feature_vote, select_vote_joined.
  rewrite (select_votes_of_user_feature_unique userId fid (votes d) i v) by done.
  simpl. by rewrite Hfid, Hf.
Qed.

(** X1.  After a cast that succeeded, the lookup of the caller's vote on
    the feature answers what the cast reported: 404 "Vote not found" after
    [removed], and after [created] or [updated] the row with the reported
    id, the cast vote type and the feature's status. *)
Theorem get_user_feature_vote_after_cast
    (userId fid : Z) (vt : vote_type) (d : db) (data : vote_data) :
  ledger_wf d →
  (cast_vote userId fid vt d).1 = json_vote data →
  let d' := (cast_vote userId fid vt d).2 in
  (action data = removed →
     get_user_feature_vote userId fid d' = lookup_error 404 "Vote not found") ∧
  (action data ≠ removed →
     ∃ id f, vote_id data = Some id ∧ features d !! fid = Some f ∧
             get_user_feature_vote userId fid d'
             = lookup_vote id (mk_vote userId fid vt) (f_status f)).
Proof.
  intros Hwf. pose proof Hwf as [Hu _].
  unfold cast_vote, cast_vote_at, cast_vote_checks.
  destruct (features d !! fid) as [f|] eqn:Hf; [|done].
  repeat (case_decide; [done|]).
  unfold cast_vote_decide.
  destruct (select_votes_of_user_feature userId fid (votes d)) as [|[i v] rest] eqn:Hsel.
  - (* insert *)
    apply select_votes_of_user_feature_nil in Hsel.
    pose proof (INSERT_INTO_votes_wf userId fid vt d Hwf) as [Hu' _].
    revert Hu'.
    unfold cast_vote_execute. rewrite INSERT_INTO_votes_eq. cbv zeta.
    repeat (case_decide; [done|]). cbn [fst snd]. intros Hu'.
    unfold cast_vote_respond. intros [= <-]. simpl. split; [done|]. intros _.
    eexists _, f. split; [done|]. split; [done|].
    rewrite (get_user_feature_vote_some userId fid _ (votes_auto_increment d)
               (mk_vote userId fid vt)
               (with_counts
                  (count_votes fid upvote (votes (inserted userId fid vt d)))
                  (count_votes fid downvote (votes (inserted userId fid vt d))) f));
      try done.
    + rewrite votes_inserted. apply lookup_insert_eq.
    + rewrite features_inserted, votes_inserted, lookup_alter_eq, Hf. done.
  - apply select_votes_of_user_feature_cons in Hsel as (Hi & Huid & Hfid & ->);
      [|done].
    case_decide as Hvt; unfold cast_vote_execute.
    + (* remove *)
      rewrite DELETE_FROM_votes_eq, Hi. cbn [fst snd].
      unfold cast_vote_respond. intros [= <-]. simpl. split; [|done]. intros _.
      apply get_user_feature_vote_none. rewrite votes_recomputed. simpl.
      by apply (no_vote_of_delete userId fid (votes d) i v).
    + (* update *)
      pose proof (UPDATE_votes_wf vt i d Hwf) as [Hu' _].
      revert Hu'. rewrite UPDATE_votes_eq, Hi. cbn [fst snd]. cbv zeta.
      rewrite decide_True by done. rewrite Huid, Hfid. intros Hu'.
      unfold cast_vote_respond. intros [= <-]. simpl. split; [done|]. intros _.
      eexists i, f. split; [done|]. split; [done|].
      rewrite votes_recomputed in Hu'.
      rewrite (get_user_feature_vote_some userId fid _ i (mk_vote userId fid vt)
                 (with_counts
                    (count_votes fid upvote
                       (<[i := mk_vote userId fid vt]> (votes d)))
                    (count_votes fid downvote
                       (<[i := mk_vote userId fid vt]> (votes d))) f)); try done.
      * rewrite votes_recomputed. simpl. apply lookup_insert_eq.
      * rewrite features_recomputed. simpl. by rewrite lookup_alter_eq, Hf.
Qed.

Lemma get_user_feature_vote_after_cast_witness :
  let data := mk_vote_data (Some 1) updated (Some downvote) 10
                (mk_vote_counts 0 1 (-1)) in
  let d' := (cast_vote 2 10 downvote one_vote_db).2 in
  (action data = removed →
     get_user_feature_vote 2 10 d' = lookup_error 404 "Vote not found") ∧
  (action data ≠ removed →
     ∃ id f, vote_id data = Some id ∧ features one_vote_db !! 10 = Some f ∧
             get_user_feature_vote 2 10 d'
             = lookup_vote id (mk_vote 2 10 downvote) (f_status f)).
Proof.
  apply (get_user_feature_vote_after_cast 2 10 downvote one_vote_db).
  - exact one_vote_db_wf.
  - vm_compute. reflexivity.
Defined.

(** ** Statistics *)

Lemma size_by_vote_type (m : gmap Z vote) :
  size m
  = (size (filter (λ iv : Z * vote, v_vote_type iv.2 = upvote) m)
     + size (filter (λ iv : Z * vote, v_vote_type iv.2 = downvote) m))%nat.
Proof.
  rewrite <- (map_filter_union_complement
                (λ iv : Z * vote, v_vote_type iv.2 = upvote) m) at 1.
  rewrite map_size_disj_union by apply map_disjoint_filter_complement.
  do 2 f_equal. apply map_filter_ext. intros i v _. simpl.
  destruct (v_vote_type v); split; (done || congruence).
Qed.

Lemma count_votes_nested fid vt (vs : gmap Z vote) :
  count_votes fid vt vs
  = Z.of_nat (size (filter (λ iv : Z * vote, v_vote_type iv.2 = vt)
                      (filter (λ iv : Z * vote, v_feature_id iv.2 = fid) vs))).
Proof.
  unfold count_votes. do 2 f_equal. rewrite map_filter_filter.
  apply map_filter_ext. intros i v _. simpl. tauto.
Qed.

Lemma count_votes_nonneg fid vt vs : 0 ≤ count_votes fid vt vs.
Proof. unfold count_votes. lia. Qed.

(** X2.  The statistics of GET /votes/feature/:featureId count every vote of
    the feature once, as an upvote or as a downvote; in a database that
    satisfies the counter invariant they are the counters stored in the
    feature row, and the stored net count is their difference. *)
Theorem feature_vote_statistics_agree (fid : Z) (d : db) (f : feature) :
  counters_consistent d → features d !! fid = Some f →
  let s := feature_vote_statistics fid (votes d) in
  total_votes s = stat_upvotes s + stat_downvotes s ∧
  stat_upvotes s = upvotes_count f ∧
  stat_downvotes s = downvotes_count f ∧
  votes_count f = stat_upvotes s - stat_downvotes s ∧
  - total_votes s ≤ votes_count f ≤ total_votes s.
Proof.
  intros Hd Hf. destruct (Hd fid f Hf) as (Hup & Hdown & Hnet).
  unfold feature_vote_statistics. simpl.
  assert (Z.of_nat (size (filter (λ iv : Z * vote, v_feature_id iv.2 = fid) (votes d)))
          = count_votes fid upvote (votes d) + count_votes fid downvote (votes d))
    as Htotal.
  { rewrite !count_votes_nested, <- Nat2Z.inj_add. f_equal.
    apply size_by_vote_type. }
  pose proof (count_votes_nonneg fid upvote (votes d)).
  pose proof (count_votes_nonneg fid downvote (votes d)).
  rewrite Htotal. repeat split; lia.
Qed.

Lemma feature_vote_statistics_agree_witness :
  let s := feature_vote_statistics 10 (votes one_vote_db) in
  total_votes s = stat_upvotes s + stat_downvotes s ∧
  stat_upvotes s = upvotes_count (mk_feature 1 pending 1 1 0) ∧
  stat_downvotes s = downvotes_count (mk_feature 1 pending 1 1 0) ∧
  votes_count (mk_feature 1 pending 1 1 0) = stat_upvotes s - stat_downvotes s ∧
  - total_votes s ≤ votes_count (mk_feature 1 pending 1 1 0) ≤ total_votes s.
Proof.
  apply (feature_vote_statistics_agree 10 one_vote_db (mk_feature 1 pending 1 1 0)).
  - intros fid f. unfold one_vote_db. simpl.
    rewrite lookup_singleton_Some. intros [<- <-]. vm_compute. done.
  - reflexivity.
Defined.

(** X3.  In the statistics of GET /votes/user/:userId the number of
    features voted on equals the number of votes, since the unique key
    leaves a user at most one vote per feature; every vote counts once, as
    an upvote or as a downvote. *)
Theorem user_vote_statistics_distinct (userId : Z) (vs : gmap Z vote) :
  unique_user_feature_vote vs →
  let s := user_vote_statistics_of userId vs in
  features_voted s = user_total_votes s ∧
  user_total_votes s = user_upvotes s + user_downvotes s.
Proof.
  intros Hu. unfold user_vote_statistics_of. simpl. split.
  - f_equal. rewrite size_list_to_set.
    + by rewrite length_fmap, length_map_to_list.
    + apply NoDup_fmap_2_strong; [|apply NoDup_map_to_list].
      intros [i v] [j w].
      rewrite !elem_of_map_to_list, !map_lookup_filter_Some. simpl.
      intros [Hi Hiu] [Hj Hju] Hsame.
      assert (i = j) as <- by (apply (Hu i v Hi j w Hj); congruence).
      congruence.
  - rewrite <- Nat2Z.inj_add. f_equal. apply size_by_vote_type.
Qed.

Lemma user_vote_statistics_distinct_witness :
  let s := user_vote_statistics_of 2 (votes one_vote_db) in
  features_voted s = user_total_votes s ∧
  user_total_votes s = user_upvotes s + user_downvotes s.
Proof.
  apply (user_vote_statistics_distinct 2 (votes one_vote_db)).
  apply one_vote_db_wf.
Defined.

(** ** Pagination *)

Lemma ceil_div_spec total limit :
  0 < limit →
  (ceil_div total limit - 1) * limit < total ≤ ceil_div total limit * limit.
Proof.
  intros Hl. unfold ceil_div.
  pose proof (Z.div_mod (- total) limit ltac:(lia)) as Hdm.
  pose proof (Z.mod_pos_bound (- total) limit Hl) as Hr.
  nia.
Qed.

Lemma length_page_rows {A} (rows : list A) page limit :
  length (page_rows rows page limit)
  = (Z.to_nat limit `min` (length rows - Z.to_nat (page_offset page limit)))%nat.
Proof. unfold page_rows. by rewrite length_take, length_drop. Qed.

(** X4.  For a page number and a limit of at least 1, with [total] the
    number of selected rows: a page holds at most [limit] rows, [hasNext] is
    true exactly when the next page holds a row, [hasPrev] exactly when the
    page skips rows, [totalPages] is the least number of pages that holds
    all rows, and every page after it is empty. *)
Theorem pagination_flags {A} (rows : list A) (page limit : Z) :
  1 ≤ page → 1 ≤ limit →
  let total := Z.of_nat (length rows) in
  let p := paginate page limit total in
  (length (page_rows rows page limit) ≤ Z.to_nat limit)%nat ∧
  (hasNext p = true ↔ page_rows rows (page + 1) limit ≠ []) ∧
  (hasPrev p = true ↔ 0 < page_offset page limit) ∧
  (totalPages p - 1) * limit < total ≤ totalPages p * limit ∧
  (totalPages p < page → page_rows rows page limit = []).
Proof.
  intros Hpage Hlimit. simpl.
  pose proof (ceil_div_spec (Z.of_nat (length rows)) limit ltac:(lia)) as Hceil.
  assert (∀ pg, 1 ≤ pg →
            (page_rows rows pg limit ≠ [] ↔
             page_offset pg limit < Z.of_nat (length rows))) as Hrows.
  { intros pg Hpg.
    assert (page_rows rows pg limit ≠ [] ↔
            (0 < length (page_rows rows pg limit))%nat) as ->.
    { destruct (page_rows rows pg limit); simpl; split; (done || lia). }
    rewrite length_page_rows. unfold page_offset.
    assert (0 ≤ (pg - 1) * limit) by nia. lia. }
  split; [rewrite length_page_rows; lia|].
  split.
  { rewrite bool_decide_eq_true, Hrows by lia. unfold page_offset. nia. }
  split.
  { rewrite bool_decide_eq_true. unfold page_offset. nia. }
  split; [done|].
  intros Hlast.
  destruct (page_rows rows page limit) eqn:Hp; [done|].
  assert (page_rows rows page limit ≠ []) as Hne by (by rewrite Hp).
  apply Hrows in Hne; [|done]. unfold page_offset in Hne. nia.
Qed.

Lemma pagination_flags_witness :
  let rows := [1; 2; 3; 4; 5] in
  let total := Z.of_nat (length rows) in
  let p := paginate 2 2 total in
  (length (page_rows rows 2 2) ≤ Z.to_nat 2)%nat ∧
  (hasNext p = true ↔ page_rows rows (2 + 1) 2 ≠ []) ∧
  (hasPrev p = true ↔ 0 < page_offset 2 2) ∧
  (totalPages p - 1) * 2 < total ≤ totalPages p * 2 ∧
  (totalPages p < 2 → page_rows rows 2 2 = []).
Proof. apply (pagination_flags [1; 2; 3; 4; 5] 2 2); lia. Defined.

(** * What a cast leaves in the other tables *)

Lemma notifications_inserted uid fid vt d f :
  features d !! fid = Some f →
  notifications (inserted uid fid vt d)
  = if decide (uid ≠ f_user_id f)
    then notifications d ++ [mk_notification (f_user_id f) fid vt]
    else notifications d.
Proof.
  intros Hf. unfold inserted. simpl.
  rewrite lookup_alter_eq, Hf. simpl. by case_decide.
Qed.

Lemma activity_logs_inserted uid fid vt d :
  activity_logs (inserted uid fid vt d)
  = activity_logs d ++ [mk_activity_log uid vt fid (votes_auto_increment d)].
Proof.
  unfold inserted. simpl.
  destruct (alter _ _ _ !! fid); [case_decide|]; done.
Qed.

(** X5.  A cast that creates a vote leaves exactly one new notification,
    addressed to the owner of the feature, and exactly one new activity-log
    row, for the voter and the new vote id; a cast that flips or removes a
    vote leaves no notification and no activity-log row. *)
Theorem cast_vote_notifies_on_create_only
    (userId fid : Z) (vt : vote_type) (d : db) (data : vote_data) :
  (cast_vote userId fid vt d).1 = json_vote data →
  let d' := (cast_vote userId fid vt d).2 in
  (action data = created →
     ∃ id f, vote_id data = Some id ∧ features d !! fid = Some f ∧
             notifications d'
             = notifications d ++ [mk_notification (f_user_id f) fid vt] ∧
             activity_logs d'
             = activity_logs d ++ [mk_activity_log userId vt fid id]) ∧
  (action data ≠ created →
     notifications d' = notifications d ∧ activity_logs d' = activity_logs d).
Proof.
  unfold cast_vote, cast_vote_at, cast_vote_checks.
  destruct (features d !! fid) as [f|] eqn:Hf; [|done].
  case_decide as Hown; [done|]. case_decide; [done|].
  destruct (cast_vote_decide userId fid vt d) as [i|i|]; unfold cast_vote_execute.
  - rewrite DELETE_FROM_votes_eq.
    destruct (votes d !! i); cbn [fst snd]; unfold cast_vote_respond;
      intros [= <-]; simpl; done.
  - rewrite UPDATE_votes_eq.
    destruct (votes d !! i); cbn [fst snd]; unfold cast_vote_respond;
      intros [= <-]; simpl; [case_decide|]; done.
  - rewrite INSERT_INTO_votes_eq. cbv zeta.
    repeat (case_decide; [done|]). cbn [fst snd].
    unfold cast_vote_respond. intros [= <-]. cbn [action vote_id].
    split; [|intros Hne; by destruct Hne]. intros _.
    eexists _, f. split; [done|]. split; [done|].
    rewrite (notifications_inserted userId fid vt d f Hf), activity_logs_inserted.
    rewrite decide_True by congruence. done.
Qed.

Lemma cast_vote_notifies_on_create_only_witness :
  let data := mk_vote_data (Some 2) created (Some downvote) 10
                (mk_vote_counts 1 1 0) in
  let d' := (cast_vote 3 10 downvote one_vote_db).2 in
  (action data = created →
     ∃ id f, vote_id data = Some id ∧ features one_vote_db !! 10 = Some f ∧
             notifications d'
             = notifications one_vote_db ++ [mk_notification (f_user_id f) 10 downvote] ∧
             activity_logs d'
             = activity_logs one_vote_db ++ [mk_activity_log 3 downvote 10 id]) ∧
  (action data ≠ created →
     notifications d' = notifications one_vote_db ∧
     activity_logs d' = activity_logs one_vote_db).
Proof.
  apply (cast_vote_notifies_on_create_only 3 10 downvote one_vote_db).
  vm_compute. reflexivity.
Defined.

(** * How the vote operations compose *)

Lemma count_votes_insert_fresh fid vt (vs : gmap Z vote) i v :
  vs !! i = None →
  count_votes fid vt (<[i := v]> vs)
  = count_votes fid vt vs
    + (if decide (v_feature_id v = fid ∧ v_vote_type v = vt) then 1 else 0).
Proof.
  intros Hi. unfold count_votes. rewrite map_filter_insert. simpl.
  case_decide.
  - rewrite map_size_insert_None; [lia|].
    apply map_lookup_filter_None. by left.
  - rewrite delete_id by done. lia.
Qed.

Lemma count_votes_retype fid vt (vs : gmap Z vote) i v t :
  vs !! i = Some v →
  count_votes fid vt (<[i := mk_vote (v_user_id v) (v_feature_id v) t]> vs)
  = count_votes fid vt vs
    - (if decide (v_feature_id v = fid ∧ v_vote_type v = vt) then 1 else 0)
    + (if decide (v_feature_id v = fid ∧ t = vt) then 1 else 0).
Proof.
  intros Hi.
  rewrite <- (insert_delete_eq vs i).
  rewrite count_votes_insert_fresh by apply lookup_delete_eq. simpl.
  rewrite <- (insert_id vs i v Hi) at 2.
  rewrite <- (insert_delete_eq vs i v).
  rewrite (count_votes_insert_fresh fid vt (delete i vs) i v)
    by apply lookup_delete_eq.
  lia.
Qed.

(** The first cast of a user without a vote, on a feature they may vote
    on. *)
Lemma cast_vote_first userId fid vt d f :
  features d !! fid = Some f → f_status f ≠ archived → f_user_id f ≠ userId →
  userId ∈ users d → ledger_wf d → no_vote_of userId fid (votes d) →
  cast_vote userId fid vt d
  = (cast_vote_respond (Some (votes_auto_increment d)) created fid vt
       (inserted userId fid vt d), inserted userId fid vt d).
Proof.
  intros Hf Hst Hown Huser Hwf Hno.
  unfold cast_vote, cast_vote_at, cast_vote_decide.
  rewrite (cast_vote_checks_pass userId fid d f) by done.
  rewrite (proj2 (select_votes_of_user_feature_nil userId fid (votes d)) Hno).
  unfold cast_vote_execute.
  by rewrite INSERT_INTO_votes_ok by (try done; by exists f).
Qed.

(** X6.  For a user without a vote on a feature they may vote on, an upvote
    cast followed by a downvote cast leaves exactly the one new row, with
    type downvote, and answers [created], then [updated]; against the
    counters before the first cast (the ledger aggregate then), the upvote
    counter is unchanged, the downvote counter is one higher and the net
    count one lower. *)
Theorem upvote_then_downvote_flips (userId fid : Z) (d : db) (f : feature) :
  features d !! fid = Some f → f_status f ≠ archived → f_user_id f ≠ userId →
  userId ∈ users d → ledger_wf d →
  no_vote_of userId fid (votes d) →
  feature_consistent (votes d) fid f →
  let id := votes_auto_increment d in
  let r1 := cast_vote userId fid upvote d in
  let r2 := cast_vote userId fid downvote r1.2 in
  votes r2.2 = <[id := mk_vote userId fid downvote]> (votes d) ∧
  features r2.2 !! fid
  = Some (mk_feature (f_user_id f) (f_status f) (votes_count f - 1)
            (upvotes_count f) (downvotes_count f + 1)) ∧
  r1.1 = json_vote (mk_vote_data (Some id) created (Some upvote) fid
                      (mk_vote_counts (upvotes_count f + 1) (downvotes_count f)
                         (votes_count f + 1))) ∧
  r2.1 = json_vote (mk_vote_data (Some id) updated (Some downvote) fid
                      (mk_vote_counts (upvotes_count f) (downvotes_count f + 1)
                         (votes_count f - 1))).
Proof.
  intros Hf Hst Hown Huser Hwf Hno (Hup & Hdown & Hnet). cbv zeta.
  set (id := votes_auto_increment d).
  rewrite (cast_vote_first userId fid upvote d f) by done.
  cbn [fst snd]. set (d1 := inserted userId fid upvote d).
  assert (votes d !! id = None) as Hfresh by by apply ledger_wf_fresh.
  assert (votes d1 = <[id := mk_vote userId fid upvote]> (votes d)) as Hv1
    by apply votes_inserted.
  pose proof (features_inserted userId fid upvote d) as Hf1. fold d1 id in Hf1.
  assert (∃ f1, features d1 !! fid = Some f1 ∧ f_user_id f1 = f_user_id f ∧
                f_status f1 = f_status f) as (f1 & Hf1' & Hown1 & Hst1).
  { rewrite Hf1, lookup_alter_eq, Hf. simpl. by eexists. }
  assert (count_votes fid upvote (<[id := mk_vote userId fid upvote]> (votes d))
          = upvotes_count f + 1) as Hc1.
  { rewrite count_votes_insert_fresh by done. simpl.
    rewrite decide_True by done. lia. }
  assert (count_votes fid downvote (<[id := mk_vote userId fid upvote]> (votes d))
          = downvotes_count f) as Hc2.
  { rewrite count_votes_insert_fresh by done. simpl.
    rewrite decide_False by (intros [_ ?]; done). lia. }
  assert (count_votes fid upvote (<[id := mk_vote userId fid downvote]> (votes d))
          = upvotes_count f) as Hc3.
  { rewrite count_votes_insert_fresh by done. simpl.
    rewrite decide_False by (intros [_ ?]; done). lia. }
  assert (count_votes fid downvote (<[id := mk_vote userId fid downvote]> (votes d))
          = downvotes_count f + 1) as Hc4.
  { rewrite count_votes_insert_fresh by done. simpl.
    rewrite decide_True by done. lia. }
  unfold cast_vote, cast_vote_at, cast_vote_decide.
  rewrite (cast_vote_checks_pass userId fid d1 f1) by congruence.
  rewrite Hv1, select_votes_of_user_feature_inserted by done.
  rewrite decide_False by done.
  unfold cast_vote_execute. rewrite UPDATE_votes_eq, Hv1, lookup_insert_eq.
  cbv zeta. cbn [fst snd v_feature_id v_user_id v_vote_type].
  rewrite decide_True by done.
  unfold cast_vote_respond.
  rewrite !votes_recomputed, features_recomputed. cbn [votes features set_votes].
  rewrite Hv1, insert_insert_eq, Hc1, Hc2, Hc3, Hc4.
  rewrite lookup_alter_eq, Hf1'. simpl.
  repeat split; try done.
  - f_equal. unfold with_counts. rewrite Hown1, Hst1. f_equal. lia.
  - do 3 f_equal. lia.
  - do 3 f_equal. lia.
Qed.

Lemma upvote_then_downvote_flips_witness :
  let f := mk_feature 1 pending 1 1 0 in
  let id := votes_auto_increment one_vote_db in
  let r1 := cast_vote 3 10 upvote one_vote_db in
  let r2 := cast_vote 3 10 downvote r1.2 in
  votes r2.2 = <[id := mk_vote 3 10 downvote]> (votes one_vote_db) ∧
  features r2.2 !! 10
  = Some (mk_feature (f_user_id f) (f_status f) (votes_count f - 1)
            (upvotes_count f) (downvotes_count f + 1)) ∧
  r1.1 = json_vote (mk_vote_data (Some id) created (Some upvote) 10
                      (mk_vote_counts (upvotes_count f + 1) (downvotes_count f)
                         (votes_count f + 1))) ∧
  r2.1 = json_vote (mk_vote_data (Some id) updated (Some downvote) 10
                      (mk_vote_counts (upvotes_count f) (downvotes_count f + 1)
                         (votes_count f - 1))).
Proof.
  apply (upvote_then_downvote_flips 3 10 one_vote_db (mk_feature 1 pending 1 1 0)).
  - reflexivity.
  - simpl. discriminate.
  - simpl. lia.
  - apply (bool_decide_unpack _). vm_compute. exact I.
  - exact one_vote_db_wf.
  - apply (bool_decide_unpack _). vm_compute. exact I.
  - vm_compute. repeat split; reflexivity.
Defined.

(** X7.  On a vote whose feature is open to its voter (not archived, not
    the voter's own), the two routes to the same change write the same
    database: PUT /votes/:id with the other type and a cast of the other
    type; DELETE /votes/:id and a cast of the type the vote already has. *)
Theorem update_remove_agree_with_cast
    (i : Z) (v : vote) (vt : vote_type) (d : db) (f : feature) :
  ledger_wf d → votes d !! i = Some v →
  features d !! v_feature_id v = Some f →
  f_status f ≠ archived → f_user_id f ≠ v_user_id v →
  (v_vote_type v ≠ vt →
     (update_vote i (v_user_id v) vt d).2
     = (cast_vote (v_user_id v) (v_feature_id v) vt d).2) ∧
  (remove_vote i (v_user_id v) d).2
  = (cast_vote (v_user_id v) (v_feature_id v) (v_vote_type v) d).2.
Proof.
  intros [Hu _] Hi Hf Hst Hown.
  unfold update_vote, remove_vote, select_vote_of_user.
  rewrite Hi. rewrite decide_True by done.
  unfold cast_vote, cast_vote_at, cast_vote_decide.
  rewrite (cast_vote_checks_pass (v_user_id v) (v_feature_id v) d f) by done.
  rewrite (select_votes_of_user_feature_unique
             (v_user_id v) (v_feature_id v) (votes d) i v) by done.
  split.
  - intros Hvt. rewrite !decide_False by done. unfold cast_vote_execute.
    by destruct (UPDATE_votes vt i d) as [[e|u] d'].
  - rewrite decide_True by done. unfold cast_vote_execute.
    by destruct (DELETE_FROM_votes i d) as [[e|u] d'].
Qed.

Lemma update_remove_agree_with_cast_witness :
  let v := mk_vote 2 10 upvote in
  (v_vote_type v ≠ downvote →
     (update_vote 1 (v_user_id v) downvote one_vote_db).2
     = (cast_vote (v_user_id v) (v_feature_id v) downvote one_vote_db).2) ∧
  (remove_vote 1 (v_user_id v) one_vote_db).2
  = (cast_vote (v_user_id v) (v_feature_id v) (v_vote_type v) one_vote_db).2.
Proof.
  apply (update_remove_agree_with_cast 1 (mk_vote 2 10 upvote) downvote one_vote_db
           (mk_feature 1 pending 1 1 0)).
  - exact one_vote_db_wf.
  - reflexivity.
  - reflexivity.
  - simpl. discriminate.
  - simpl. lia.
Defined.

(** X8.  The bulk runner answers an administrator with one result per
    operation, in the order of the batch and each carrying its operation,
    whatever fails on the way; the success count in the message is the
    number of results marked [success: true] and never exceeds the number
    of operations. *)
Theorem bulk_votes_one_result_per_operation
    (userId : Z) (ops : list bulk_op) (d : db) :
  ∃ rs, (bulk_votes userId "admin" ops d).1
        = json_bulk (length (filter (λ r, success r = true) rs)) (length ops) rs ∧
        operation <$> rs = ops ∧
        (bulk_votes userId "admin" ops d).2 = (bulk_operations userId ops d).2 ∧
        (length (filter (λ r, success r = true) rs) ≤ length ops)%nat.
Proof.
  unfold bulk_votes. rewrite decide_False by (intros Hne; by apply Hne).
  assert (operation <$> (bulk_operations userId ops d).1 = ops) as Hops.
  { revert d. induction ops as [|op ops IH]; intros d; [done|]. simpl.
    assert ((bulk_operation userId op d).1.(operation) = op) as Hop.
    { unfold bulk_operation.
      repeat match goal with
             | |- context [match ?x with _ => _ end] => destruct x
             end; done. }
    destruct (bulk_operation userId op d) as [r d1]. specialize (IH d1).
    destruct (bulk_operations userId ops d1) as [rs d2]. simpl in *.
    f_equal; [exact Hop | exact IH]. }
  pose proof (bulk_operations_length userId ops d) as Hlen.
  destruct (bulk_operations userId ops d) as [rs d']. simpl in *.
  exists rs. repeat split; try done.
  rewrite <- Hlen. apply length_filter.
Qed.

(** * The feature service and the invariants of the tables *)

Lemma UPDATE_features_status_eq status fid d :
  (UPDATE_features_status status fid d).2
  = match features d !! fid with
    | Some OLD =>
        match validate_feature_status_transition (f_status OLD) status with
        | Some _ => d
        | None =>
            set_features
              (<[fid := mk_feature (f_user_id OLD) status (votes_count OLD)
                          (upvotes_count OLD) (downvotes_count OLD)]> (features d)) d
        end
    | None => d
    end.
Proof.
  unfold UPDATE_features_status. destruct (features d !! fid) as [OLD|]; [|done].
  by destruct (validate_feature_status_transition (f_status OLD) status).
Qed.

(** The tables after PATCH /features/:id/status. *)
Lemma update_feature_status_tables {A} userRole fid status d (c : cache A) :
  (update_feature_status userRole fid status d c).2.1
  = if decide (userRole ≠ "admin"%string) then d
    else (UPDATE_features_status status fid d).2.
Proof.
  unfold update_feature_status. case_decide; [done|].
  rewrite UPDATE_features_status_eq. unfold UPDATE_features_status.
  destruct (features d !! fid) as [OLD|]; [|done].
  by destruct (validate_feature_status_transition (f_status OLD) status).
Qed.

(** The tables after DELETE /features/:id. *)
Lemma delete_feature_tables {A} userId userRole fid d (c : cache A) :
  (delete_feature userId userRole fid d c).2.1 = d ∨
  (is_Some (features d !! fid) ∧
   (delete_feature userId userRole fid d c).2.1 = DELETE_FROM_features fid d).
Proof.
  unfold delete_feature.
  destruct (requireOwnershipOrAdmin userId userRole fid d); [by left|].
  destruct (features d !! fid) eqn:Hf; [right|by left]. by split.
Qed.

Lemma UPDATE_features_status_consistent status fid d :
  counters_consistent d → counters_consistent (UPDATE_features_status status fid d).2.
Proof.
  intros Hd. rewrite UPDATE_features_status_eq.
  destruct (features d !! fid) as [OLD|] eqn:Hf; [|done].
  destruct (validate_feature_status_transition (f_status OLD) status); [done|].
  intros g f. simpl. rewrite lookup_insert_Some.
  intros [[<- <-]|[_ Hg]]; [|by apply Hd]. by apply (Hd fid OLD).
Qed.

Lemma DELETE_FROM_features_consistent fid d :
  counters_consistent d → counters_consistent (DELETE_FROM_features fid d).
Proof.
  intros Hd g f. unfold DELETE_FROM_features. simpl.
  intros [Hne Hg]%lookup_delete_Some.
  apply (feature_consistent_ext g f (votes d)); [|by apply Hd].
  intros i v Hv. rewrite map_lookup_filter_Some. simpl.
  split; [|tauto]. intros Hi. split; [done|]. congruence.
Qed.

Lemma system_step_consistent r d :
  counters_consistent d → counters_consistent (system_step r d).
Proof.
  intros Hd. destruct r as [r|role fid st|u role fid]; simpl.
  - by apply handle_consistent.
  - rewrite update_feature_status_tables. case_decide; [done|].
    by apply UPDATE_features_status_consistent.
  - destruct (delete_feature_tables (A := unit) u role fid d ∅) as [->|[_ ->]];
      [done|]. by apply DELETE_FROM_features_consistent.
Qed.

(** X9.  The counter invariant of the vote triggers survives the writes of
    the feature service as well: along any sequence of vote requests,
    status changes and feature deletions, every feature's counters equal the
    aggregate over its vote rows after every request. *)
Theorem counters_consistent_across_services (rs : list system_request) (d : db) :
  counters_consistent d →
  Forall (λ d', ∀ fid f, features d' !! fid = Some f →
                  upvotes_count f = count_votes fid upvote (votes d') ∧
                  downvotes_count f = count_votes fid downvote (votes d') ∧
                  votes_count f = upvotes_count f - downvotes_count f)
         (system_states_after rs d).
Proof.
  revert d. induction rs as [|r rs IH]; intros d Hd; simpl.
  - constructor.
  - pose proof (system_step_consistent r d Hd) as Hd'.
    constructor; [exact Hd' | by apply IH].
Qed.

Lemma lifecycle_db_consistent : counters_consistent lifecycle_db.
Proof.
  change (map_Forall (λ fid f, feature_consistent (votes lifecycle_db) fid f)
            (features lifecycle_db)).
  apply (bool_decide_unpack _). vm_compute. exact I.
Defined.

Lemma counters_consistent_across_services_witness :
  Forall (λ d', ∀ fid f, features d' !! fid = Some f →
                  upvotes_count f = count_votes fid upvote (votes d') ∧
                  downvotes_count f = count_votes fid downvote (votes d') ∧
                  votes_count f = upvotes_count f - downvotes_count f)
         (system_states_after lifecycle_requests lifecycle_db).
Proof.
  apply (counters_consistent_across_services lifecycle_requests lifecycle_db).
  exact lifecycle_db_consistent.
Defined.

(** ** The unique key *)

Lemma ledger_wf_filter fid d :
  ledger_wf d → ledger_wf (DELETE_FROM_features fid d).
Proof.
  rewrite !ledger_wf_unfold. unfold DELETE_FROM_features. simpl.
  intros [Hu Hlt]. split.
  - intros i v j w [Hi _]%map_lookup_filter_Some [Hj _]%map_lookup_filter_Some.
    by apply Hu.
  - intros i v [Hi _]%map_lookup_filter_Some. by apply (Hlt i v).
Qed.

Lemma system_step_ledger_wf r d : ledger_wf d → ledger_wf (system_step r d).
Proof.
  intros Hd. destruct r as [r|role fid st|u role fid]; simpl.
  - by apply handle_ledger_wf.
  - rewrite update_feature_status_tables. case_decide; [done|].
    rewrite UPDATE_features_status_eq.
    destruct (features d !! fid) as [OLD|]; [|done].
    by destruct (validate_feature_status_transition (f_status OLD) st).
  - destruct (delete_feature_tables (A := unit) u role fid d ∅) as [->|[_ ->]];
      [done|]. by apply ledger_wf_filter.
Qed.

(** X10.  Along any sequence of vote requests, status changes and feature
    deletions, from a database in which no user has two votes on one
    feature and the AUTO_INCREMENT counter is above every vote id, no user
    ever has two votes on one feature: two vote rows with the same user and
    the same feature are the same row. *)
Theorem one_vote_per_user_and_feature (rs : list system_request) (d : db) :
  ledger_wf d →
  Forall (λ d', ∀ i j v w,
            votes d' !! i = Some v → votes d' !! j = Some w →
            v_user_id v = v_user_id w → v_feature_id v = v_feature_id w →
            i = j)
         (system_states_after rs d).
Proof.
  revert d. induction rs as [|r rs IH]; intros d Hd; simpl.
  - constructor.
  - pose proof (system_step_ledger_wf r d Hd) as Hd'.
    constructor; [|by apply IH].
    apply ledger_wf_unfold in Hd' as [Hu _]. intros i j v w. apply Hu.
Qed.

Lemma lifecycle_db_wf : ledger_wf lifecycle_db.
Proof. apply (bool_decide_unpack _). vm_compute. exact I. Defined.

Lemma one_vote_per_user_and_feature_witness :
  Forall (λ d', ∀ i j v w,
            votes d' !! i = Some v → votes d' !! j = Some w →
            v_user_id v = v_user_id w → v_feature_id v = v_feature_id w →
            i = j)
         (system_states_after lifecycle_requests lifecycle_db).
Proof.
  apply (one_vote_per_user_and_feature lifecycle_requests lifecycle_db).
  exact lifecycle_db_wf.
Defined.

(** ** Properties kept by every vote handler

    A property of the tables that the three statements on [votes] keep is
    kept by every handler of the voting service. *)
Section handle_preserves.
Variable P : db → Prop.
Hypothesis P_DELETE : ∀ vid d, P d → P (DELETE_FROM_votes vid d).2.
Hypothesis P_UPDATE : ∀ vt vid d, P d → P (UPDATE_votes vt vid d).2.
Hypothesis P_INSERT : ∀ uid fid vt d, P d → P (INSERT_INTO_votes uid fid vt d).2.

Lemma bulk_operation_preserves userId op d :
  P d → P (bulk_operation userId op d).2.
Proof.
  intros Hd. unfold bulk_operation.
  destruct (op_action op).
  - destruct (truthy (op_feature_id op)) as [fid|]; [|done].
    destruct (op_vote_type op) as [vt|]; [|done].
    statement_result (P_INSERT userId fid vt d Hd).
  - destruct (truthy (op_vote_id op)) as [vid|]; [|done].
    destruct (op_vote_type op) as [vt|]; [|done].
    statement_result (P_UPDATE vt vid d Hd).
  - destruct (truthy (op_vote_id op)) as [vid|]; [|done].
    statement_result (P_DELETE vid d Hd).
Qed.

Lemma bulk_operations_preserves userId ops :
  ∀ d, P d → P (bulk_operations userId ops d).2.
Proof.
  induction ops as [|op ops IH]; intros d Hd; [done|]. simpl.
  pose proof (bulk_operation_preserves userId op d Hd) as H1.
  destruct (bulk_operation userId op d) as [r d1]. simpl in H1.
  specialize (IH d1 H1).
  destruct (bulk_operations userId ops d1) as [rs d2]. exact IH.
Qed.

Lemma handle_preserves r d : P d → P (handle r d).2.
Proof.
  intros Hd.
  destruct r as [userId fid vt|voteId userId vt|voteId userId|userId role ops];
    simpl.
  - unfold cast_vote, cast_vote_at.
    destruct (cast_vote_checks userId fid d); [done|].
    destruct (cast_vote_decide userId fid vt d) as [id|id|]; simpl.
    + statement_result (P_DELETE id d Hd).
    + statement_result (P_UPDATE vt id d Hd).
    + statement_result (P_INSERT userId fid vt d Hd).
  - unfold update_vote.
    destruct (select_vote_of_user voteId userId (votes d)); [|done].
    case_decide; [done|]. statement_result (P_UPDATE vt voteId d Hd).
  - unfold remove_vote.
    destruct (select_vote_of_user voteId userId (votes d)); [|done].
    statement_result (P_DELETE voteId d Hd).
  - unfold bulk_votes. case_decide; [done|].
    pose proof (bulk_operations_preserves userId ops d Hd) as H1.
    destruct (bulk_operations userId ops d) as [rs d']. exact H1.
Qed.
End handle_preserves.

(** ** Referential integrity *)

Lemma votes_reference_unfold d :
  votes_reference d ↔
  ∀ i v, votes d !! i = Some v →
         v_user_id v ∈ users d ∧ is_Some (features d !! v_feature_id v).
Proof. done. Qed.

Lemma handle_votes_reference r d :
  votes_reference d → votes_reference (handle r d).2.
Proof.
  revert r d. apply handle_preserves.
  - intros vid d Hd. rewrite DELETE_FROM_votes_eq.
    destruct (votes d !! vid) as [OLD|]; [|done]. cbn [snd].
    intros i v. rewrite votes_recomputed, features_recomputed. simpl.
    intros [_ Hi]%lookup_delete_Some. rewrite lookup_alter_is_Some.
    by apply (Hd i v).
  - intros vt vid d Hd. rewrite UPDATE_votes_eq.
    destruct (votes d !! vid) as [OLD|] eqn:Hvid; [|done]. cbn [snd]. cbv zeta.
    assert (∀ i v, <[vid := mk_vote (v_user_id OLD) (v_feature_id OLD) vt]> (votes d) !! i
                   = Some v →
                   v_user_id v ∈ users d ∧ is_Some (features d !! v_feature_id v))
      as Hrows.
    { intros i v [[<- <-]|[_ Hi]]%lookup_insert_Some; [|by apply (Hd i v)].
      by apply (Hd vid OLD). }
    case_decide; intros i v.
    + rewrite votes_recomputed, features_recomputed. simpl.
      rewrite lookup_alter_is_Some. apply Hrows.
    + simpl. apply Hrows.
  - intros uid fid vt d Hd. rewrite INSERT_INTO_votes_eq. cbv zeta.
    repeat (case_decide; [done|]). cbn [snd].
    intros i v. rewrite votes_inserted, features_inserted.
    assert (users (inserted uid fid vt d) = users d) as ->
      by (unfold inserted; simpl; destruct (alter _ _ _ !! fid); [case_decide|]; done).
    rewrite lookup_alter_is_Some.
    intros [[<- <-]|[_ Hi]]%lookup_insert_Some; [|by apply (Hd i v)].
    simpl. split; [done|].
    by destruct (features d !! fid).
Qed.

Lemma system_step_votes_reference r d :
  votes_reference d → votes_reference (system_step r d).
Proof.
  intros Hd. destruct r as [r|role fid st|u role fid]; simpl.
  - by apply handle_votes_reference.
  - rewrite update_feature_status_tables. case_decide; [done|].
    rewrite UPDATE_features_status_eq.
    destruct (features d !! fid) as [OLD|] eqn:Hf; [|done].
    destruct (validate_feature_status_transition (f_status OLD) st); [done|].
    intros i v Hi. simpl in *. destruct (Hd i v Hi) as [Hu Hfe]. split; [done|].
    destruct (decide (fid = v_feature_id v)) as [<-|Hne].
    + rewrite lookup_insert_eq. by eexists.
    + by rewrite lookup_insert_ne.
  - destruct (delete_feature_tables (A := unit) u role fid d ∅) as [->|[_ ->]];
      [done|].
    intros i v. unfold DELETE_FROM_features. simpl.
    intros [Hi Hne]%map_lookup_filter_Some. simpl in Hne.
    destruct (Hd i v Hi) as [Hu Hfe]. split; [done|].
    by rewrite lookup_delete_ne.
Qed.

(** X11.  Along any sequence of vote requests, status changes and feature
    deletions, from a database in which every vote refers to a user and a
    feature that exist, every vote still does after every request: no
    handler leaves a vote on a deleted feature or of an unknown user. *)
Theorem votes_refer_to_existing_rows (rs : list system_request) (d : db) :
  votes_reference d →
  Forall (λ d', ∀ i v, votes d' !! i = Some v →
                  v_user_id v ∈ users d' ∧
                  ∃ f, features d' !! v_feature_id v = Some f)
         (system_states_after rs d).
Proof.
  revert d. induction rs as [|r rs IH]; intros d Hd; simpl.
  - constructor.
  - pose proof (system_step_votes_reference r d Hd) as Hd'.
    constructor; [|by apply IH]. intros i v Hi. by apply (Hd' i v).
Qed.

Lemma lifecycle_db_reference : votes_reference lifecycle_db.
Proof. apply (bool_decide_unpack _). vm_compute. exact I. Defined.

Lemma votes_refer_to_existing_rows_witness :
  Forall (λ d', ∀ i v, votes d' !! i = Some v →
                  v_user_id v ∈ users d' ∧
                  ∃ f, features d' !! v_feature_id v = Some f)
         (system_states_after lifecycle_requests lifecycle_db).
Proof.
  apply (votes_refer_to_existing_rows lifecycle_requests lifecycle_db).
  exact lifecycle_db_reference.
Defined.

(** ** The life cycle of a feature *)

Lemma status_after_refl s : status_after s s.
Proof. destruct s; simpl; auto. Qed.

Lemma status_after_step s0 s1 s2 :
  status_after s0 s1 → validate_feature_status_transition s1 s2 = None →
  status_after s0 s2.
Proof.
  destruct s0, s1, s2; simpl; intros H1; vm_compute; intros H2;
    try done; try (destruct H1; done); auto.
Qed.

Lemma feature_identity_recomputed fid d g :
  feature_identity <$> features (recomputed fid d) !! g
  = feature_identity <$> features d !! g.
Proof.
  rewrite features_recomputed, lookup_alter. case_decide as Hg; [|done].
  subst g. by destruct (features d !! fid).
Qed.

(** Vote requests write no column of a feature row but the three
    counters, and neither add nor remove feature rows. *)
Lemma handle_feature_identity r d g :
  feature_identity <$> features (handle r d).2 !! g
  = feature_identity <$> features d !! g.
Proof.
  revert g.
  apply (handle_preserves
           (λ d', ∀ g, feature_identity <$> features d' !! g
                       = feature_identity <$> features d !! g)); [| | |done].
  - intros vid d1 Hd g. rewrite DELETE_FROM_votes_eq.
    destruct (votes d1 !! vid); [|done]. cbn [snd].
    by rewrite feature_identity_recomputed.
  - intros vt vid d1 Hd g. rewrite UPDATE_votes_eq.
    destruct (votes d1 !! vid); [|done]. cbn [snd]. cbv zeta.
    case_decide; [|done]. by rewrite feature_identity_recomputed.
  - intros uid fid vt d1 Hd g. rewrite INSERT_INTO_votes_eq. cbv zeta.
    repeat (case_decide; [done|]). cbn [snd].
    rewrite features_inserted, lookup_alter. case_decide as Hg; [|done].
    subst g. rewrite <- Hd. by destruct (features d1 !! fid).
Qed.

(** Every request leaves a feature row its owner, and its status unless
    the trigger accepts the new one. *)
Lemma system_step_feature r d g f2 :
  features (system_step r d) !! g = Some f2 →
  ∃ f1, features d !! g = Some f1 ∧ f_user_id f2 = f_user_id f1 ∧
        validate_feature_status_transition (f_status f1) (f_status f2) = None.
Proof.
  destruct r as [r|role fid st|u role fid]; simpl.
  - intros Hg. pose proof (handle_feature_identity r d g) as Hid.
    rewrite Hg in Hid. destruct (features d !! g) as [f1|]; [|done].
    injection Hid as Hu Hs. exists f1. split; [done|]. split; [done|].
    rewrite Hs. apply validate_feature_status_transition_same.
  - rewrite update_feature_status_tables, UPDATE_features_status_eq.
    assert (features d !! g = Some f2 →
            ∃ f1, features d !! g = Some f1 ∧ f_user_id f2 = f_user_id f1 ∧
                  validate_feature_status_transition (f_status f1) (f_status f2)
                  = None) as Hsame.
    { intros Hg. exists f2. split; [done|]. split; [done|].
      apply validate_feature_status_transition_same. }
    case_decide; [done|].
    destruct (features d !! fid) as [OLD|] eqn:Hf; [|done].
    destruct (validate_feature_status_transition (f_status OLD) st) eqn:Hval;
      [done|].
    simpl. intros [[<- <-]|[_ Hg]]%lookup_insert_Some; [|by apply Hsame].
    by exists OLD.
  - assert (features d !! g = Some f2 →
            ∃ f1, features d !! g = Some f1 ∧ f_user_id f2 = f_user_id f1 ∧
                  validate_feature_status_transition (f_status f1) (f_status f2)
                  = None) as Hsame.
    { intros Hg. exists f2. split; [done|]. split; [done|].
      apply validate_feature_status_transition_same. }
    destruct (delete_feature_tables (A := unit) u role fid d ∅) as [->|[_ ->]];
      [done|].
    unfold DELETE_FROM_features. simpl.
    intros [_ Hg]%lookup_delete_Some. by apply Hsame.
Qed.

Lemma system_states_after_feature rs :
  ∀ d fid f,
    (∀ f', features d !! fid = Some f' →
           f_user_id f' = f_user_id f ∧ status_after (f_status f) (f_status f')) →
    Forall (λ d', ∀ f', features d' !! fid = Some f' →
                    f_user_id f' = f_user_id f ∧
                    status_after (f_status f) (f_status f'))
           (system_states_after rs d).
Proof.
  induction rs as [|r rs IH]; intros d fid f Hinv; simpl; [constructor|].
  assert (∀ f', features (system_step r d) !! fid = Some f' →
                f_user_id f' = f_user_id f ∧ status_after (f_status f) (f_status f'))
    as Hinv'.
  { intros f2 (f1 & Hf1 & Hown & Hval)%system_step_feature.
    destruct (Hinv f1 Hf1) as [Hown1 Hst1]. split; [congruence|].
    by apply (status_after_step _ (f_status f1)). }
  constructor; [done | by apply IH].
Qed.

(** X12.  Along any sequence of vote requests, status changes and feature
    deletions, by whatever users and roles, a feature keeps its owner for as
    long as it exists; once archived it stays archived, and once
    implemented it is implemented or archived ever after. *)
Theorem implemented_and_archived_are_final
    (rs : list system_request) (d : db) (fid : Z) (f : feature) :
  features d !! fid = Some f →
  Forall (λ d', ∀ f', features d' !! fid = Some f' →
                  f_user_id f' = f_user_id f ∧
                  (f_status f = archived → f_status f' = archived) ∧
                  (f_status f = implemented →
                   f_status f' = implemented ∨ f_status f' = archived))
         (system_states_after rs d).
Proof.
  intros Hf.
  eapply Forall_impl; [apply (system_states_after_feature rs d fid f)|].
  - intros f' Hf'. rewrite Hf in Hf'. injection Hf' as <-.
    split; [done | apply status_after_refl].
  - intros d' Hd' f' Hf'. destruct (Hd' f' Hf') as [Hown Hst]. split; [done|].
    split; intros Hs; rewrite Hs in Hst; exact Hst.
Qed.

Lemma implemented_and_archived_are_final_witness :
  Forall (λ d', ∀ f', features d' !! 12 = Some f' →
                  f_user_id f' = f_user_id (mk_feature 1 implemented 1 1 0) ∧
                  (f_status (mk_feature 1 implemented 1 1 0) = archived →
                   f_status f' = archived) ∧
                  (f_status (mk_feature 1 implemented 1 1 0) = implemented →
                   f_status f' = implemented ∨ f_status f' = archived))
         (system_states_after lifecycle_requests lifecycle_db).
Proof.
  apply (implemented_and_archived_are_final lifecycle_requests lifecycle_db 12
           (mk_feature 1 implemented 1 1 0)).
  reflexivity.
Defined.

Lemma cast_vote_on_archived_or_missing userId fid vt d :
  (∀ f, features d !! fid = Some f → f_status f = archived) →
  (cast_vote userId fid vt d).2 = d ∧
  ∃ st msg, (cast_vote userId fid vt d).1 = json_error st msg ∧
            (st = 400 ∨ st = 404).
Proof.
  intros Harch. unfold cast_vote, cast_vote_at, cast_vote_checks.
  destruct (features d !! fid) as [f|] eqn:Hf.
  - case_decide; [split; [done|]; eexists _, _; split; [done|by left]|].
    rewrite decide_True by by apply Harch.
    split; [done|]. eexists _, _. split; [done|by left].
  - split; [done|]. eexists _, _. split; [done|by right].
Qed.

(** X13.  An administrator can archive every feature that is not archived
    yet (the cache of the feature service is emptied), and from then on no
    cast on that feature succeeds, whoever casts and whatever requests were
    served in between: the answer is 400, or 404 once the feature is
    deleted, and the cast changes nothing. *)
Theorem no_cast_after_archiving {A}
    (fid : Z) (d : db) (c : cache A) (f : feature) (rs : list system_request) :
  features d !! fid = Some f → f_status f ≠ archived →
  let r := update_feature_status "admin" fid archived d c in
  features r.2.1 !! fid
  = Some (mk_feature (f_user_id f) archived (votes_count f) (upvotes_count f)
            (downvotes_count f)) ∧
  r.2.2 = ∅ ∧
  (∃ row, r.1 = feature_status_updated row) ∧
  Forall (λ d', ∀ userId vt,
            (cast_vote userId fid vt d').2 = d' ∧
            ∃ st msg, (cast_vote userId fid vt d').1 = json_error st msg ∧
                      (st = 400 ∨ st = 404))
         (r.2.1 :: system_states_after rs r.2.1).
Proof.
  intros Hf Hst. cbv zeta.
  assert (validate_feature_status_transition (f_status f) archived = None) as Hval
    by (destruct (f_status f); done).
  assert (update_feature_status "admin" fid archived d c
          = (feature_status_updated
               (select_feature_with_user fid
                  (set_features
                     (<[fid := mk_feature (f_user_id f) archived (votes_count f)
                                 (upvotes_count f) (downvotes_count f)]>
                        (features d)) d)),
             (set_features
                (<[fid := mk_feature (f_user_id f) archived (votes_count f)
                            (upvotes_count f) (downvotes_count f)]>
                   (features d)) d, ∅))) as ->.
  { unfold update_feature_status, UPDATE_features_status.
    rewrite decide_False by (intros Hne; by apply Hne).
    by rewrite Hf, Hval. }
  cbn [fst snd]. set (d1 := set_features _ d).
  assert (features d1 !! fid
          = Some (mk_feature (f_user_id f) archived (votes_count f)
                    (upvotes_count f) (downvotes_count f))) as Hf1
    by apply lookup_insert_eq.
  split; [done|]. split; [done|]. split; [by eexists|].
  pose proof (system_states_after_feature rs d1 fid
                (mk_feature (f_user_id f) archived (votes_count f)
                   (upvotes_count f) (downvotes_count f))) as Hrun.
  constructor.
  - intros userId vt. apply cast_vote_on_archived_or_missing.
    intros f' Hf'. rewrite Hf1 in Hf'. by injection Hf' as <-.
  - eapply Forall_impl; [apply Hrun|].
    + intros f' Hf'. rewrite Hf1 in Hf'. injection Hf' as <-. done.
    + intros d' Hd' userId vt. apply cast_vote_on_archived_or_missing.
      intros f' Hf'. by destruct (Hd' f' Hf') as [_ Hs].
Qed.

Lemma no_cast_after_archiving_witness :
  let f := mk_feature 1 pending 0 0 0 in
  let r := update_feature_status (A := unit) "admin" 11 archived lifecycle_db ∅ in
  features r.2.1 !! 11
  = Some (mk_feature (f_user_id f) archived (votes_count f) (upvotes_count f)
            (downvotes_count f)) ∧
  r.2.2 = ∅ ∧
  (∃ row, r.1 = feature_status_updated row) ∧
  Forall (λ d', ∀ userId vt,
            (cast_vote userId 11 vt d').2 = d' ∧
            ∃ st msg, (cast_vote userId 11 vt d').1 = json_error st msg ∧
                      (st = 400 ∨ st = 404))
         (r.2.1 :: system_states_after lifecycle_requests r.2.1).
Proof.
  apply (no_cast_after_archiving (A := unit) 11 lifecycle_db ∅
           (mk_feature 1 pending 0 0 0) lifecycle_requests).
  - reflexivity.
  - simpl. discriminate.
Defined.

(** X14.  DELETE /features/:id deletes exactly when the feature exists and
    the caller is an administrator or its owner.  A deletion removes the
    feature row and every vote on it, leaves every other feature row and
    every other vote as it was, and empties the cache; a refused request
    changes neither the tables nor the cache. *)
Theorem delete_feature_outcome {A}
    (userId : Z) (userRole : string) (fid : Z) (d : db) (c : cache A) :
  let r := delete_feature userId userRole fid d c in
  (r.1 = feature_deleted ↔
   ∃ f, features d !! fid = Some f ∧
        (userRole = "admin"%string ∨ f_user_id f = userId)) ∧
  (r.1 = feature_deleted →
   features r.2.1 !! fid = None ∧
   (∀ g, g ≠ fid → features r.2.1 !! g = features d !! g) ∧
   (∀ i v, votes r.2.1 !! i = Some v ↔
           votes d !! i = Some v ∧ v_feature_id v ≠ fid) ∧
   r.2.2 = ∅) ∧
  (r.1 ≠ feature_deleted → r.2 = (d, c)).
Proof.
  cbv zeta. unfold delete_feature, requireOwnershipOrAdmin.
  assert (∀ f0 : feature,
            features d !! fid = Some f0 →
            features (DELETE_FROM_features fid d) !! fid = None ∧
            (∀ g, g ≠ fid →
                  features (DELETE_FROM_features fid d) !! g = features d !! g) ∧
            (∀ i v, votes (DELETE_FROM_features fid d) !! i = Some v ↔
                    votes d !! i = Some v ∧ v_feature_id v ≠ fid)) as Hdel.
  { intros f0 _. unfold DELETE_FROM_features. simpl.
    split; [apply lookup_delete_eq|].
    split; [intros g Hg; by apply lookup_delete_ne|].
    intros i v. by rewrite map_lookup_filter_Some. }
  destruct (decide (userRole = "admin"%string)) as [Hadmin|Hadmin];
    destruct (features d !! fid) as [f|] eqn:Hf; simpl.
  - split; [|split]; [|intros _; destruct (Hdel f eq_refl) as (? & ? & ?); done|done].
    split; [intros _; exists f; auto | done].
  - split; [|split]; try done.
    split; [done|]. by intros (f & ? & _).
  - destruct (decide (f_user_id f ≠ userId)) as [Hown|Hown]; simpl.
    + split; [|split]; try done.
      split; [done|]. intros (f' & [= <-] & [?|?]); done.
    + apply dec_stable in Hown.
      split; [|split];
        [|intros _; destruct (Hdel f eq_refl) as (? & ? & ?); done|done].
      split; [intros _; exists f; auto | done].
  - split; [|split]; try done.
    split; [done|]. by intros (f & ? & _).
Qed.

(** * The cache *)

(** X15.  A value stored with [cacheSet] is what [cacheGet] returns for its
    key at every time before the expiry, the store time plus [ttl] seconds,
    and the cache is left alone; from the expiry on [cacheGet] returns
    [null] and removes the entry.  Reads of other keys do not see the
    store. *)
Theorem cache_set_then_get {A}
    (key : string) (value : A) (ttl t0 t1 : Z) (c : cache A) :
  let c1 := cacheSet key value ttl t0 c in
  (t1 < t0 + ttl * 1000 → cacheGet key t1 c1 = (Some value, c1)) ∧
  (t0 + ttl * 1000 ≤ t1 → cacheGet key t1 c1 = (None, delete key c)) ∧
  (∀ key', key' ≠ key → (cacheGet key' t1 c1).1 = (cacheGet key' t1 c).1).
Proof.
  cbv zeta. unfold cacheGet, cacheSet. rewrite lookup_insert_eq. simpl.
  split; [|split].
  - intros Hlt. by rewrite decide_True.
  - intros Hge. rewrite decide_False by lia. by rewrite delete_insert_eq.
  - intros key' Hne. rewrite lookup_insert_ne by done.
    destruct (c !! key') as [item|]; [case_decide|]; done.
Qed.

(** X16.  Whatever the cache holds, [cacheGet] returns only a value whose
    entry has not expired, leaves no expired entry under the key it was
    asked for, and changes no other key. *)
Theorem cache_get_is_fresh {A} (key : string) (now : Z) (c : cache A) :
  (∀ v, (cacheGet key now c).1 = Some v →
        ∃ item, c !! key = Some item ∧ item_value item = v ∧
                now < item_expiry item) ∧
  (∀ item, (cacheGet key now c).2 !! key = Some item → now < item_expiry item) ∧
  (∀ key', key' ≠ key → (cacheGet key now c).2 !! key' = c !! key').
Proof.
  unfold cacheGet. destruct (c !! key) as [item|] eqn:Hkey.
  - case_decide as Hexp; simpl.
    + split; [|split].
      * intros v [= <-]. by exists item.
      * intros item' Hitem'. rewrite Hkey in Hitem'. by injection Hitem' as <-.
      * done.
    + split; [done|]. split.
      * intros item'. by rewrite lookup_delete_eq.
      * intros key' Hne. by rewrite lookup_delete_ne.
  - simpl. split; [done|]. split.
    + intros item'. by rewrite lookup_delete_eq.
    + intros key' Hne. by rewrite lookup_delete_ne.
Qed.

(** X17.  A report that missed the cache is computed from the database of
    that moment and stored; until [ttl] seconds later the same request is
    answered with that stored response, whatever the database has become;
    from then on, or right after an administrator cleared the cache, it is
    computed anew.  A clear request without the administrator role leaves
    the cache as it is. *)
Theorem cached_report_staleness {A}
    (cacheKey : string) (compute : db → A) (ttl t0 t1 : Z) (d0 d1 : db)
    (c : cache A) :
  (cacheGet cacheKey t0 c).1 = None →
  let r0 := cached_report cacheKey compute ttl t0 d0 c in
  r0.1 = compute d0 ∧
  (t1 < t0 + ttl * 1000 →
     (cached_report cacheKey compute ttl t1 d1 r0.2).1 = compute d0) ∧
  (t0 + ttl * 1000 ≤ t1 →
     (cached_report cacheKey compute ttl t1 d1 r0.2).1 = compute d1) ∧
  (cached_report cacheKey compute ttl t1 d1
     (clear_cache (Some "admin"%string) r0.2).2).1 = compute d1 ∧
  (∀ userRole, userRole ≠ Some "admin"%string →
     clear_cache userRole r0.2
     = (cache_clear_error 403 "Admin access required", r0.2)).
Proof.
  intros Hmiss. cbv zeta.
  assert (∃ c', cached_report cacheKey compute ttl t0 d0 c
                = (compute d0, cacheSet cacheKey (compute d0) ttl t0 c'))
    as [c' ->].
  { unfold cached_report.
    destruct (cacheGet cacheKey t0 c) as [[v|] c'] eqn:Hget; [done|].
    by exists c'. }
  cbn [fst snd].
  pose proof (cache_set_then_get cacheKey (compute d0) ttl t0 t1 c') as Hset.
  cbv zeta in Hset. destruct Hset as (Hhit & Hexp & _).
  split; [done|]. split; [|split; [|split]].
  - intros Hlt. unfold cached_report. by rewrite (Hhit Hlt).
  - intros Hge. unfold cached_report. by rewrite (Hexp Hge).
  - unfold clear_cache. rewrite decide_False by (intros Hne; by apply Hne).
    unfold cached_report, cacheGet. cbn [snd]. by rewrite lookup_empty.
  - intros userRole Hrole. unfold clear_cache. by rewrite decide_True.
Qed.

Lemma cached_report_staleness_witness :
  let compute := λ d : db, feature_vote_statistics 10 (votes d) in
  let r0 := cached_report "features_votes_all:{}" compute 180 1000 scenario_db ∅ in
  r0.1 = compute scenario_db ∧
  (2000 < 1000 + 180 * 1000 →
     (cached_report "features_votes_all:{}" compute 180 2000 one_vote_db r0.2).1
     = compute scenario_db) ∧
  (1000 + 180 * 1000 ≤ 2000 →
     (cached_report "features_votes_all:{}" compute 180 2000 one_vote_db r0.2).1
     = compute one_vote_db) ∧
  (cached_report "features_votes_all:{}" compute 180 2000 one_vote_db
     (clear_cache (Some "admin"%string) r0.2).2).1 = compute one_vote_db ∧
  (∀ userRole, userRole ≠ Some "admin"%string →
     clear_cache userRole r0.2
     = (cache_clear_error 403 "Admin access required", r0.2)).
Proof.
  apply (cached_report_staleness "features_votes_all:{}"
           (λ d : db, feature_vote_statistics 10 (votes d)) 180 1000 2000
           scenario_db one_vote_db ∅).
  reflexivity.
Defined.

(** * More on the cast *)

Lemma select_votes_of_user_feature_head uid fid vs i v rest :
  select_votes_of_user_feature uid fid vs = (i, v) :: rest →
  vs !! i = Some v ∧ v_user_id v = uid ∧ v_feature_id v = fid.
Proof.
  intros Hsel. apply select_votes_of_user_feature_elem.
  rewrite Hsel. apply list_elem_of_here.
Qed.

Lemma features_recomputed_lookup fid d f :
  features d !! fid = Some f →
  features (recomputed fid d) !! fid
  = Some (with_counts (count_votes fid upvote (votes d))
                      (count_votes fid downvote (votes d)) f).
Proof. intros Hf. by rewrite features_recomputed, lookup_alter_eq, Hf. Qed.

(** X18.  The counts that a successful cast reports are the counters it
    leaves in the feature row: [upvotes], [downvotes] and [total] of the
    response equal [upvotes_count], [downvotes_count] and [votes_count] of
    the feature after the cast, whatever the counters were before. *)
Theorem cast_vote_reports_stored_counters
    (userId fid : Z) (vt : vote_type) (d : db) (data : vote_data) :
  (cast_vote userId fid vt d).1 = json_vote data →
  ∃ f', features (cast_vote userId fid vt d).2 !! fid = Some f' ∧
        upvotes (counts data) = upvotes_count f' ∧
        downvotes (counts data) = downvotes_count f' ∧
        total (counts data) = votes_count f'.
Proof.
  unfold cast_vote, cast_vote_at, cast_vote_checks.
  destruct (features d !! fid) as [f|] eqn:Hf; [|done].
  repeat (case_decide; [done|]). unfold cast_vote_decide.
  destruct (select_votes_of_user_feature userId fid (votes d)) as [|[i v] rest]
    eqn:Hsel.
  - unfold cast_vote_execute. rewrite INSERT_INTO_votes_eq. cbv zeta.
    repeat (case_decide; [done|]). cbn [fst snd].
    pose proof (votes_inserted userId fid vt d) as Hv.
    pose proof (features_inserted userId fid vt d) as Hfe.
    remember (inserted userId fid vt d) as d' eqn:Hd' in *. clear Hd'.
    unfold cast_vote_respond. intros [= <-]. cbn [counts upvotes downvotes total].
    rewrite Hfe, Hv, lookup_alter_eq, Hf. simpl.
    by eexists.
  - apply select_votes_of_user_feature_head in Hsel as (Hi & _ & Hfid).
    case_decide as Hvt; unfold cast_vote_execute.
    + rewrite DELETE_FROM_votes_eq, Hi, Hfid. cbn [fst snd].
      pose proof (features_recomputed_lookup fid
                    (set_votes (delete i (votes d)) d) f Hf) as Hfe.
      pose proof (votes_recomputed fid (set_votes (delete i (votes d)) d)) as Hv.
      remember (recomputed fid (set_votes (delete i (votes d)) d)) as d' eqn:Hd' in *.
      clear Hd'.
      unfold cast_vote_respond. intros [= <-]. cbn [counts upvotes downvotes total].
      rewrite Hfe, Hv. by eexists.
    + rewrite UPDATE_votes_eq, Hi, Hfid. cbn [fst snd]. cbv zeta.
      rewrite decide_True by done.
      pose proof (features_recomputed_lookup fid
                    (set_votes (<[i := mk_vote (v_user_id v) fid vt]> (votes d)) d)
                    f Hf) as Hfe.
      pose proof (votes_recomputed fid
                    (set_votes (<[i := mk_vote (v_user_id v) fid vt]> (votes d)) d))
        as Hv.
      remember (recomputed fid
                  (set_votes (<[i := mk_vote (v_user_id v) fid vt]> (votes d)) d))
        as d' eqn:Hd' in *.
      clear Hd'.
      unfold cast_vote_respond. intros [= <-]. cbn [counts upvotes downvotes total].
      rewrite Hfe, Hv. by eexists.
Qed.

Lemma cast_vote_reports_stored_counters_witness :
  let data := mk_vote_data (Some 2) created (Some downvote) 10
                (mk_vote_counts 1 1 0) in
  ∃ f', features (cast_vote 3 10 downvote one_vote_db).2 !! 10 = Some f' ∧
        upvotes (counts data) = upvotes_count f' ∧
        downvotes (counts data) = downvotes_count f' ∧
        total (counts data) = votes_count f'.
Proof.
  apply (cast_vote_reports_stored_counters 3 10 downvote one_vote_db).
  vm_compute. reflexivity.
Defined.

(** X19.  A cast whose reads ran against an older database than the one
    its write meets (another request committed in between) cannot break the
    tables it writes to: from a database with the counter invariant and the
    constraints of [votes], the database after the write has them too. *)
Theorem stale_reads_keep_invariants
    (userId fid : Z) (vt : vote_type) (d_read d_write : db) :
  counters_consistent d_write → ledger_wf d_write →
  let d' := (cast_vote_at userId fid vt d_read d_write).2 in
  (∀ g f, features d' !! g = Some f →
          upvotes_count f = count_votes g upvote (votes d') ∧
          downvotes_count f = count_votes g downvote (votes d') ∧
          votes_count f = upvotes_count f - downvotes_count f) ∧
  (∀ i j v w, votes d' !! i = Some v → votes d' !! j = Some w →
              v_user_id v = v_user_id w → v_feature_id v = v_feature_id w →
              i = j) ∧
  (∀ i v, votes d' !! i = Some v → i < votes_auto_increment d').
Proof.
  intros Hc Hwf. cbv zeta. split.
  - unfold cast_vote_at.
    destruct (cast_vote_checks userId fid d_read); [exact Hc|].
    by apply cast_vote_execute_consistent.
  - assert (ledger_wf (cast_vote_at userId fid vt d_read d_write).2) as Hwf'.
    { unfold cast_vote_at.
      destruct (cast_vote_checks userId fid d_read); [exact Hwf|].
      destruct (cast_vote_decide userId fid vt d_read) as [id|id|]; simpl.
      - statement_result (DELETE_FROM_votes_wf id d_write Hwf).
      - statement_result (UPDATE_votes_wf vt id d_write Hwf).
      - statement_result (INSERT_INTO_votes_wf userId fid vt d_write Hwf). }
    apply ledger_wf_unfold in Hwf' as [Hu Hlt]. split; [|done].
    intros i j v w. apply Hu.
Qed.

Lemma raced_db_consistent : counters_consistent raced_db.
Proof.
  change (map_Forall (λ fid f, feature_consistent (votes raced_db) fid f)
            (features raced_db)).
  apply (bool_decide_unpack _). vm_compute. exact I.
Defined.

Lemma raced_db_wf : ledger_wf raced_db.
Proof. apply (bool_decide_unpack _). vm_compute. exact I. Defined.

Lemma stale_reads_keep_invariants_witness :
  let d' := (cast_vote_at 2 10 downvote scenario_db raced_db).2 in
  (∀ g f, features d' !! g = Some f →
          upvotes_count f = count_votes g upvote (votes d') ∧
          downvotes_count f = count_votes g downvote (votes d') ∧
          votes_count f = upvotes_count f - downvotes_count f) ∧
  (∀ i j v w, votes d' !! i = Some v → votes d' !! j = Some w →
              v_user_id v = v_user_id w → v_feature_id v = v_feature_id w →
              i = j) ∧
  (∀ i v, votes d' !! i = Some v → i < votes_auto_increment d').
Proof.
  apply (stale_reads_keep_invariants 2 10 downvote scenario_db raced_db).
  - exact raced_db_consistent.
  - exact raced_db_wf.
Defined.

(** X20.  The bulk runner does not ask whose vote it changes: an
    administrator's bulk delete of an existing vote of another user removes
    the row and is marked [success: true], while the same administrator's
    DELETE /votes/:id for that vote answers 404 and changes nothing. *)
Theorem bulk_delete_ignores_ownership
    (adminId vid : Z) (v : vote) (ofid ouid : option Z) (ovt : option vote_type)
    (d : db) :
  votes d !! vid = Some v → v_user_id v ≠ adminId → vid ≠ 0 →
  let op := mk_bulk_op op_delete ofid (Some vid) ovt ouid in
  let r := bulk_votes adminId "admin" [op] d in
  r.1 = json_bulk 1 1 [mk_bulk_result op true None None] ∧
  votes r.2 = delete vid (votes d) ∧
  remove_vote vid adminId d
  = (json_error 404 "Vote not found or access denied", d).
Proof.
  intros Hv Hother Hvid. cbv zeta. unfold bulk_votes.
  rewrite decide_False by (intros Hne; by apply Hne).
  simpl. unfold bulk_operation. simpl. unfold truthy.
  rewrite decide_False by done. rewrite DELETE_FROM_votes_eq, Hv. cbn [fst snd].
  split; [done|]. split; [done|].
  unfold remove_vote, select_vote_of_user. rewrite Hv.
  by rewrite decide_False.
Qed.

Lemma bulk_delete_ignores_ownership_witness :
  let op := mk_bulk_op op_delete None (Some 1) None None in
  let r := bulk_votes 1 "admin" [op] one_vote_db in
  r.1 = json_bulk 1 1 [mk_bulk_result op true None None] ∧
  votes r.2 = delete 1 (votes one_vote_db) ∧
  remove_vote 1 1 one_vote_db
  = (json_error 404 "Vote not found or access denied", one_vote_db).
Proof.
  apply (bulk_delete_ignores_ownership 1 1 (mk_vote 2 10 upvote) None None None
           one_vote_db).
  - reflexivity.
  - simpl. lia.
  - lia.
Defined.


